(** * ThreadScheduler: user-level threads and a binary semaphore

    A shallow embedding of [binsem.c] and [ut.c].  Both C files keep their
    state in static variables and talk to the operating system through
    [alarm], [raise], [malloc], [free], [getcontext], [makecontext],
    [swapcontext] and [sigaction].  The static variables become the fields of
    a record that is threaded through a small state monad; every library call
    is written to a trace, and whatever a library call answers (a pointer or
    NULL, 0 or -1) is an argument of the function that makes the call.

    C integers are modelled in [Z].  [int] values stay far below [INT_MAX] on
    every path that is reasoned about ([curr_thread + 1] is checked
    explicitly); [unsigned long] is 64 bits wide (LP64) and its addition
    wraps. *)

From Stdlib Require Import ZArith NArith Lia Bool.
From stdpp Require Import base tactics option list numbers.

Local Open Scope Z_scope.

(** ** Outcomes of a C function *)

(** What may go wrong without the function returning: the behaviours the C
    standard leaves undefined that the code can run into, and a call into the
    rest of the program that does not come back. *)
Inductive fault : Type :=
| NullDeref                (* access through a NULL table pointer *)
| UseAfterFree             (* access through a table pointer already freed *)
| OutOfBounds (i : Z)      (* index outside the allocated table *)
| DivByZero                (* [x % 0] *)
| SignedOverflow           (* [int] arithmetic leaving the [int] range *)
| InvalidFree (p : Z)      (* [free] of something [malloc] never returned,
                              or returned and already freed *)
| WildContext              (* a context resumed that nobody has saved *)
| LostCall (h : Z).        (* a call through [h] that does not come back: [h]
                              is no function's address, or the function
                              crashes, waits for ever or jumps away *)

(** A call returns a value and a state, ends the process through [exit], or
    has undefined behaviour. *)
Inductive outcome (S A : Type) : Type :=
| Ret (a : A) (s : S)
| Exit (code : Z) (s : S)
| Undefined (f : fault).

Arguments Ret {S A} a s.
Arguments Exit {S A} code s.
Arguments Undefined {S A} f.

Definition M (S A : Type) : Type := S -> outcome S A.

#[global] Instance M_ret {S} : MRet (M S) := fun A a s => Ret a s.

#[global] Instance M_bind {S} : MBind (M S) := fun A B k m s =>
  match m s with
  | Ret a s' => k a s'
  | Exit c s' => Exit c s'
  | Undefined f => Undefined f
  end.

Definition get {S} : M S S := fun s => Ret s s.
Definition modify {S} (f : S -> S) : M S unit := fun s => Ret tt (f s).
Definition undefined {S A} (f : fault) : M S A := fun _ => Undefined f.
Definition exit {S A} (code : Z) : M S A := fun s => Exit code s.

(** [for (i = first; i < first + n; i++) body] over the indices
    [first .. first + n - 1]. *)
Fixpoint for_each {S} (idxs : list Z) (body : Z -> M S unit) : M S unit :=
  match idxs with
  | [] => mret tt
  | i :: rest => body i ;; for_each rest body
  end.

(** ** The environment: signals, pointers, library calls *)

(** Signal numbers of <signal.h> (Linux). *)
Definition SIGINT : Z := 2.
Definition SIGALRM : Z := 14.
Definition SIGVTALRM : Z := 26.

Definition EXIT_FAILURE : Z := 1.

(** A data pointer is an address, [NULL] is 0.  A function pointer is a code
    address; the null function pointer is 0 (it is also [SIG_DFL]). *)
Definition ptr : Type := Z.
Definition funptr : Type := Z.
Definition NULL : ptr := 0.

(** Library calls, as they appear in the trace (most recent first). *)
Inductive event : Type :=
| EvAlarm (seconds : Z)                    (* alarm(seconds) *)
| EvRaise (signal : Z)                     (* raise(signal) *)
| EvMalloc (p : ptr)                       (* malloc(..) answered p *)
| EvFree (p : ptr)                         (* free(p) *)
| EvGetcontext (slot : Z) (ok : bool)      (* getcontext(&threads_table[slot].uc) *)
| EvMakecontext (slot : Z) (f : funptr) (a : Z)
| EvSwapcontext (from to : option Z) (ok : bool)
    (* swapcontext(&from, &to); [Some i] is threads_table[i].uc, [None] is uc_out *)
| EvCall (f : funptr) (a : Z)              (* a call through a function pointer *)
| EvPerror
| EvSetitimer (ok : bool)
| EvSigaction (signal : Z) (ok : bool).

#[global] Instance event_eq_dec : EqDecision event.
Proof. solve_decision. Defined.

(** * binsem.c *)

Module Binsem.

(** The caller's semaphore word [*s] together with the trace of the calls
    made on its behalf. *)
Record world : Type := World { sem : Z; trace : list event }.

Definition log (e : event) : M world unit :=
  modify (fun w => World (sem w) (e :: trace w)).

(** Modelled from the spec: [xchg] is declared in binsem.h, which is not part
    of the sources.  The spec describes it as what acquire does in one
    indivisible step: it reads the current value of the word and stores the
    new one, and hands back the value read. *)
Definition xchg (v : Z) : M world Z :=
  fun w => Ret (sem w) (World v (trace w)).

Definition alarm (seconds : Z) : M world unit := log (EvAlarm seconds).

(** [raise] delivers the signal before it returns; its answer (0 or nonzero)
    is the environment's. *)
Definition raise (signal : Z) (answer : Z) : M world Z :=
  log (EvRaise signal) ;; mret answer.

Definition binsem_init (init_val : Z) : M world unit :=
  if init_val >? 0
  then modify (fun w => World 1 (trace w))
  else modify (fun w => World 0 (trace w)).

Definition binsem_up : M world unit :=
  xchg 1 ;; mret tt.

Definition binsem_down (raise_answer : Z) : M world Z :=
  old ← xchg 0;
  if old =? 0 then
    alarm 0 ;;
    raise SIGALRM raise_answer
  else
    mret 0.

End Binsem.

(** * ut.c *)

(** What ut.h declares.  The header is not part of the sources, so its
    constants are parameters of the development: the table bounds, the size
    of a thread's stack and the two negative results of [ut_init] and
    [ut_spawn_thread].  [tid_t] is taken to be wide enough for
    [MAX_TAB_SIZE] and for both results, so that converting to it changes no
    value the code produces. *)
Class ut_header : Type := UtHeader {
  MAX_TAB_SIZE : Z;
  MIN_TAB_SIZE : Z;
  STACKSIZE : Z;
  SYS_ERR : Z;
  TAB_FULL : Z
}.

(** What a call through a function pointer into the rest of the program
    does, as far as ut.c can tell: the function comes back, it ends the
    process through [exit], or control never returns to the caller. *)
Inductive call_answer : Type :=
| Returns
| Ends (code : Z)
| Lost.

(** The program ut.c is linked into: what happens when the function at an
    address is called with a signal number.  Like the header it is a
    parameter of the development. *)
Class host : Type := call_through : funptr -> Z -> call_answer.

(** [SIG_IGN] of <signal.h> (Linux); [SIG_DFL] is the null pointer.  It may
    be what [sigaction] reports as the previous handler, and it is not the
    address of a function. *)
Definition SIG_IGN : funptr := 1.

Definition QUANTUM : Z := 1.
Definition INTERVAL_MILLI : Z := 100000.
Definition INTERVAL_MICRO : Z := 100.

Definition INT_MAX : Z := 2147483647.
Definition ULONG_MODULUS : Z := 2 ^ 64.

(** [a + b] in [unsigned long]. *)
Definition ulong_add (a b : Z) : Z := (a + b) mod ULONG_MODULUS.

(** The machine part of a [ucontext_t]: bytes nobody wrote, the position
    [getcontext] captured, the entry [makecontext] prepared, or the position
    inside the signal handler that [swapcontext] saved. *)
Inductive mcontext : Type :=
| McWild (bits : Z)
| McCaptured
| McEntry (f : funptr) (a : Z)
| McSuspended.

(** A [ucontext_t *]: the address of the static [uc_out], or anything
    else. *)
Inductive ctx_ptr : Type :=
| CtxWild (a : Z)
| CtxUcOut.

Record stack_t : Type := Stack { ss_sp : ptr; ss_size : Z }.

Record ucontext_t : Type := Ucontext {
  uc_link : ctx_ptr;
  uc_stack : stack_t;
  uc_mcontext : mcontext
}.

Module Slot.
(** [ut_slot_t], the element type of the threads table.  Its declaration is
    in ut.h; [vtime] is an [unsigned long], the type [ut_get_vtime] returns
    it with. *)
Record ut_slot_t : Type := Make {
  uc : ucontext_t;
  vtime : Z;
  func : funptr;
  arg : Z
}.

Definition set_uc_link (l : ctx_ptr) (sl : ut_slot_t) : ut_slot_t :=
  Make (Ucontext l (uc_stack (uc sl)) (uc_mcontext (uc sl)))
       (vtime sl) (func sl) (arg sl).
Definition set_ss_sp (p : ptr) (sl : ut_slot_t) : ut_slot_t :=
  Make (Ucontext (uc_link (uc sl)) (Stack p (ss_size (uc_stack (uc sl))))
                 (uc_mcontext (uc sl)))
       (vtime sl) (func sl) (arg sl).
Definition set_ss_size (n : Z) (sl : ut_slot_t) : ut_slot_t :=
  Make (Ucontext (uc_link (uc sl)) (Stack (ss_sp (uc_stack (uc sl))) n)
                 (uc_mcontext (uc sl)))
       (vtime sl) (func sl) (arg sl).
Definition set_mcontext (m : mcontext) (sl : ut_slot_t) : ut_slot_t :=
  Make (Ucontext (uc_link (uc sl)) (uc_stack (uc sl)) m)
       (vtime sl) (func sl) (arg sl).
Definition set_vtime (v : Z) (sl : ut_slot_t) : ut_slot_t :=
  Make (uc sl) v (func sl) (arg sl).
Definition set_func (f : funptr) (sl : ut_slot_t) : ut_slot_t :=
  Make (uc sl) (vtime sl) f (arg sl).
Definition set_arg (a : Z) (sl : ut_slot_t) : ut_slot_t :=
  Make (uc sl) (vtime sl) (func sl) a.
End Slot.

Module Ut.

(** The static variables of ut.c, the heap as far as the code can tell
    ([heap_live]: the blocks [malloc] has handed out and [free] has not taken
    back; [heap_next]: the address the next block gets), and the trace.  A
    non-NULL [threads_table] is the address of the block and what the block
    holds. *)
Record state : Type := State {
  heap_live : list ptr;
  heap_next : positive;
  threads_table : option (ptr * list Slot.ut_slot_t);
  threads_table_size : Z;
  next_position : Z;
  curr_thread : Z;
  vtime : Z;
  old_sigaction : funptr;      (* old_sigaction.sa_handler *)
  uc_out : mcontext;
  trace : list event
}.

Definition set_heap (live : list ptr) (next : positive) (s : state) : state :=
  State live next (threads_table s) (threads_table_size s) (next_position s)
        (curr_thread s) (vtime s) (old_sigaction s) (uc_out s) (trace s).
Definition set_threads_table (t : option (ptr * list Slot.ut_slot_t))
    (s : state) : state :=
  State (heap_live s) (heap_next s) t (threads_table_size s) (next_position s)
        (curr_thread s) (vtime s) (old_sigaction s) (uc_out s) (trace s).
Definition set_threads_table_size (n : Z) (s : state) : state :=
  State (heap_live s) (heap_next s) (threads_table s) n (next_position s)
        (curr_thread s) (vtime s) (old_sigaction s) (uc_out s) (trace s).
Definition set_next_position (n : Z) (s : state) : state :=
  State (heap_live s) (heap_next s) (threads_table s) (threads_table_size s) n
        (curr_thread s) (vtime s) (old_sigaction s) (uc_out s) (trace s).
Definition set_curr_thread (n : Z) (s : state) : state :=
  State (heap_live s) (heap_next s) (threads_table s) (threads_table_size s)
        (next_position s) n (vtime s) (old_sigaction s) (uc_out s) (trace s).
Definition set_vtime (v : Z) (s : state) : state :=
  State (heap_live s) (heap_next s) (threads_table s) (threads_table_size s)
        (next_position s) (curr_thread s) v (old_sigaction s) (uc_out s)
        (trace s).
Definition set_old_sigaction (h : funptr) (s : state) : state :=
  State (heap_live s) (heap_next s) (threads_table s) (threads_table_size s)
        (next_position s) (curr_thread s) (vtime s) h (uc_out s) (trace s).
Definition set_uc_out (m : mcontext) (s : state) : state :=
  State (heap_live s) (heap_next s) (threads_table s) (threads_table_size s)
        (next_position s) (curr_thread s) (vtime s) (old_sigaction s) m
        (trace s).
Definition add_event (e : event) (s : state) : state :=
  State (heap_live s) (heap_next s) (threads_table s) (threads_table_size s)
        (next_position s) (curr_thread s) (vtime s) (old_sigaction s)
        (uc_out s) (e :: trace s).

(** The statics as the C initialisers leave them, on an empty heap. *)
Definition initial : state :=
  State [] 1%positive None 0 0 0 0 0 (McWild 0) [].

(** ** Library calls *)

Definition log (e : event) : M state unit := modify (add_event e).
Definition alarm (seconds : Z) : M state unit := log (EvAlarm seconds).
Definition perror : M state unit := log EvPerror.

Definition is_live (p : ptr) (s : state) : bool :=
  existsb (Z.eqb p) (heap_live s).

(** [malloc]: a block at an address never used before, or NULL. *)
Definition malloc (ok : bool) : M state ptr :=
  if ok then
    s ← get;
    let p := Z.pos (heap_next s) in
    modify (set_heap (p :: heap_live s) (Pos.succ (heap_next s))) ;;
    log (EvMalloc p) ;;
    mret p
  else
    log (EvMalloc NULL) ;;
    mret NULL.

(** [free]: nothing for NULL, the block is given back if it is live, and
    anything else is undefined. *)
Definition free (p : ptr) : M state unit :=
  log (EvFree p) ;;
  if p =? NULL then mret tt
  else
    s ← get;
    if is_live p s
    then modify (set_heap (List.filter (fun q => negb (q =? p)) (heap_live s))
                          (heap_next s))
    else undefined (InvalidFree p).

(** The state after [free(p)] of a live block, and after freeing the blocks
    [ps] in turn. *)
Definition freed (p : ptr) (s : state) : state :=
  set_heap (List.filter (fun q => negb (q =? p)) (heap_live s)) (heap_next s)
           (add_event (EvFree p) s).

Definition released (ps : list ptr) (s : state) : state :=
  foldl (fun s p => freed p s) s ps.

(** ** Access to [threads_table\[i\]] *)

Definition table : M state (ptr * list Slot.ut_slot_t) :=
  s ← get;
  match threads_table s with
  | None => undefined NullDeref
  | Some (p, slots) =>
      if is_live p s then mret (p, slots) else undefined UseAfterFree
  end.

Definition load_slot (i : Z) : M state Slot.ut_slot_t :=
  t ← table;
  if i <? 0 then undefined (OutOfBounds i)
  else
    match snd t !! Z.to_nat i with
    | Some sl => mret sl
    | None => undefined (OutOfBounds i)
    end.

Definition update_slot (i : Z) (f : Slot.ut_slot_t -> Slot.ut_slot_t)
    : M state unit :=
  sl ← load_slot i;
  t ← table;
  modify (set_threads_table (Some (fst t, <[Z.to_nat i := f sl]> (snd t)))).

Section Functions.
Context `{ut_header} {prog : host}.

(** ** release_memory *)

Definition release_memory : M state Z :=
  s ← get;
  match threads_table s with
  | Some (p, _) =>
      for_each (seqZ 0 (threads_table_size s)) (fun i =>
        sl ← load_slot i;
        free (ss_sp (uc_stack (Slot.uc sl)))) ;;
      free p ;;
      mret 0
  | None =>
      perror ;;
      exit EXIT_FAILURE
  end.

(** ** ut_init *)

(** [chunk] is what [malloc] answers for the table: [None] for NULL,
    [Some g] for a block whose [i]-th element holds [g i], the bytes that
    happen to be there. *)
Definition ut_init (tab_size : Z) (chunk : option (Z -> Slot.ut_slot_t))
    : M state Z :=
  let tab_size :=
    if (tab_size >? MAX_TAB_SIZE) || (tab_size <? MIN_TAB_SIZE)
    then MAX_TAB_SIZE else tab_size in
  s ← get;
  match threads_table s with
  | Some _ => release_memory ;; mret tt
  | None => mret tt
  end ;;
  modify (set_threads_table_size tab_size) ;;
  modify (set_next_position 0) ;;
  modify (set_curr_thread 0) ;;
  match chunk with
  | Some g =>
      p ← malloc true;
      modify (set_threads_table (Some (p, g <$> seqZ 0 tab_size))) ;;
      mret 0
  | None =>
      malloc false ;;
      modify (set_threads_table None) ;;
      mret SYS_ERR
  end.

(** The part of [ut_init] that follows the release of an old table, with
    [tab_size] already brought into range. *)
Definition init_rest (tab_size : Z) (chunk : option (Z -> Slot.ut_slot_t))
    : M state Z :=
  modify (set_threads_table_size tab_size) ;;
  modify (set_next_position 0) ;;
  modify (set_curr_thread 0) ;;
  match chunk with
  | Some g =>
      p ← malloc true;
      modify (set_threads_table (Some (p, g <$> seqZ 0 tab_size))) ;;
      mret 0
  | None =>
      malloc false ;;
      modify (set_threads_table None) ;;
      mret SYS_ERR
  end.

(** ** ut_spawn_thread *)

(** [stack_ok]: [malloc(STACKSIZE)] answers a block; [getcontext_ok]:
    [getcontext] answers 0. *)
Definition ut_spawn_thread (func : funptr) (arg : Z)
    (stack_ok getcontext_ok : bool) : M state Z :=
  s ← get;
  if next_position s =? threads_table_size s then mret TAB_FULL
  else
    stack ← malloc stack_ok;
    if stack =? NULL then mret SYS_ERR
    else
      let i := next_position s in
      load_slot i ;;
      log (EvGetcontext i getcontext_ok) ;;
      if negb getcontext_ok then mret SYS_ERR
      else
        update_slot i (Slot.set_mcontext McCaptured) ;;
        update_slot i (Slot.set_uc_link CtxUcOut) ;;
        update_slot i (Slot.set_ss_sp stack) ;;
        update_slot i (Slot.set_ss_size STACKSIZE) ;;
        log (EvMakecontext i func arg) ;;
        update_slot i (Slot.set_mcontext (McEntry func arg)) ;;
        update_slot i (Slot.set_vtime 0) ;;
        update_slot i (Slot.set_func func) ;;
        update_slot i (Slot.set_arg arg) ;;
        modify (set_next_position (i + 1)) ;;
        mret i.

(** ** thread_signals_handler *)

(** [swapcontext(&threads_table\[from\].uc, &threads_table\[to\].uc)]: when
    it succeeds the running position is saved in slot [from] and slot [to]
    runs; the call answers 0 once slot [from] runs again.  When it fails it
    answers -1. *)
Definition swapcontext (from to : Z) (ok : bool) : M state Z :=
  load_slot from ;;
  load_slot to ;;
  log (EvSwapcontext (Some from) (Some to) ok) ;;
  if ok then
    update_slot from (Slot.set_mcontext McSuspended) ;;
    mret 0
  else
    mret (-1).

(** A handler stored before this one is run through its pointer.  Whether
    it comes back is up to the host program, and [SIG_IGN] cannot be called
    at all.  A handler that comes back is taken to have left the statics of
    ut.c and the heap alone. *)
Definition call_handler (h : funptr) (signal : Z) : M state unit :=
  log (EvCall h signal) ;;
  if h =? SIG_IGN then undefined (LostCall h)
  else
    match call_through h signal with
    | Returns => mret tt
    | Ends code => exit code
    | Lost => undefined (LostCall h)
    end.

(** The handler SIGINT had before does not keep the handler of ut.c from
    going on: there is none to call, or the call comes back. *)
Definition comes_back (h : funptr) : bool :=
  (h =? 0)
  || (negb (h =? SIG_IGN)
      && match call_through h SIGINT with Returns => true | _ => false end).

Definition thread_signals_handler (signal : Z) (swap_ok : bool)
    : M state unit :=
  if signal =? SIGALRM then
    alarm QUANTUM ;;
    s ← get;
    let last_thread := curr_thread s in
    if last_thread + 1 >? INT_MAX then undefined SignedOverflow
    else if threads_table_size s =? 0 then undefined DivByZero
    else
      modify (set_curr_thread
                (Z.rem (last_thread + 1) (threads_table_size s))) ;;
      s' ← get;
      r ← swapcontext last_thread (curr_thread s') swap_ok;
      if r =? -1 then
        perror ;;
        exit EXIT_FAILURE
      else mret tt
  else if signal =? SIGVTALRM then
    s ← get;
    modify (set_vtime (ulong_add (vtime s) INTERVAL_MICRO)) ;;
    update_slot (curr_thread s)
      (fun sl => Slot.set_vtime (ulong_add (Slot.vtime sl) INTERVAL_MICRO) sl)
  else if signal =? SIGINT then
    alarm 0 ;;
    s ← get;
    let old_handler := old_sigaction s in
    (if old_handler =? 0 then mret tt else call_handler old_handler SIGINT) ;;
    release_memory ;;
    mret tt
  else mret tt.

(** ** ut_start *)

(** What the system calls of [ut_start] answer. *)
Record start_answers : Type := StartAnswers {
  sigfillset_ok : bool;
  setitimer_ok : bool;
  sigaction_alrm_ok : bool;
  sigaction_vtalrm_ok : bool;
  sigaction_old_ok : bool;
  previous_sigint : funptr;     (* the handler SIGINT had before *)
  sigaction_int_ok : bool;
  swapcontext_ok : bool
}.

Definition status (ok : bool) : Z := if ok then 0 else -1.

(** [Some r]: [ut_start] returned [r] at once.  [None]: the first
    [swapcontext] succeeded and slot 0 runs; [ut_start] is left standing in
    that call and returns when a thread's function does (see
    [thread_function_returns]).  The code passes [swapcontext] the address
    of slot 0 and reads nothing through the table itself; when the call
    succeeds the library has resumed the context stored there. *)
Definition ut_start (a : start_answers) : M state (option Z) :=
  if negb (sigfillset_ok a) then mret (Some SYS_ERR)
  else
    log (EvSetitimer (setitimer_ok a)) ;;
    if negb (setitimer_ok a) then mret (Some SYS_ERR)
    else
      log (EvSigaction SIGALRM (sigaction_alrm_ok a)) ;;
      log (EvSigaction SIGVTALRM (sigaction_vtalrm_ok a)) ;;
      log (EvSigaction SIGINT (sigaction_old_ok a)) ;;
      (if sigaction_old_ok a
       then modify (set_old_sigaction (previous_sigint a))
       else mret tt) ;;
      log (EvSigaction SIGINT (sigaction_int_ok a)) ;;
      let error_count :=
        0 + status (sigaction_alrm_ok a) + status (sigaction_vtalrm_ok a)
          + status (sigaction_old_ok a) + status (sigaction_int_ok a) in
      if negb (error_count =? 0) then mret (Some SYS_ERR)
      else
        alarm QUANTUM ;;
        log (EvSwapcontext None (Some 0) (swapcontext_ok a)) ;;
        if swapcontext_ok a then
          load_slot 0 ;;
          modify (set_uc_out McSuspended) ;;
          mret None
        else mret (Some SYS_ERR).

(** The function of the running thread returns.  Its context was prepared by
    [makecontext], so the context its [uc_link] points at is resumed.
    [ut_spawn_thread] has pointed it at [uc_out], where [ut_start] stands in
    its [swapcontext]: that call now answers 0 and [ut_start] goes on to
    [return (SYS_ERR)].  The result is what [ut_start] returns. *)
Definition thread_function_returns : M state Z :=
  s ← get;
  sl ← load_slot (curr_thread s);
  match uc_link (Slot.uc sl), uc_out s with
  | CtxUcOut, McSuspended => mret SYS_ERR
  | _, _ => undefined WildContext
  end.

(** ** ut_get_vtime *)

Definition ut_get_vtime (tid : Z) : M state Z :=
  s ← get;
  if (0 <=? tid) && (tid <? threads_table_size s) then
    sl ← load_slot tid;
    mret (Slot.vtime sl)
  else mret 0.

(** ** Runs *)

(** Signals handled one after the other; each comes with what
    [swapcontext] would answer. *)
Fixpoint deliver (sigs : list (Z * bool)) : M state unit :=
  match sigs with
  | [] => mret tt
  | (signal, swap_ok) :: rest =>
      thread_signals_handler signal swap_ok ;; deliver rest
  end.

(** [n] virtual-clock ticks in a row. *)
Definition ticks (n : N) : M state unit :=
  N.iter n (fun m => m ;; thread_signals_handler SIGVTALRM true) (mret tt).

(** Calls of [ut_spawn_thread] one after the other, with their results. *)
Fixpoint spawns (calls : list (funptr * Z * bool * bool)) : M state (list Z) :=
  match calls with
  | [] => mret []
  | (f, a, stack_ok, getcontext_ok) :: rest =>
      id ← ut_spawn_thread f a stack_ok getcontext_ok;
      ids ← spawns rest;
      mret (id :: ids)
  end.

End Functions.

(** ** Observations on a state *)

Definition slots_of (s : state) : list Slot.ut_slot_t :=
  match threads_table s with
  | Some (_, slots) => slots
  | None => []
  end.

Definition sum_vtime (slots : list Slot.ut_slot_t) : Z :=
  foldr (fun sl acc => Slot.vtime sl + acc) 0 slots.

(** The [vtime] field of slot [i] (0 when there is no such slot). *)
Definition slot_vtime (i : nat) (s : state) : Z :=
  match slots_of s !! i with
  | Some sl => Slot.vtime sl
  | None => 0
  end.

(** The table is allocated and live, it has [threads_table_size] elements,
    and the running index points into it. *)
Definition sched_okb (s : state) : bool :=
  match threads_table s with
  | Some (p, slots) =>
      is_live p s
      && (Z.of_nat (length slots) =? threads_table_size s)
      && (0 <=? curr_thread s) && (curr_thread s <? threads_table_size s)
      && (threads_table_size s <=? INT_MAX)
  | None => false
  end.

(** A table right after [ut_init] and one [ut_spawn_thread] per slot, before
    any tick: every counter is 0, and so is the accumulator. *)
Definition fresh_fullb (s : state) : bool :=
  sched_okb s
  && (next_position s =? threads_table_size s)
  && (vtime s =? 0)
  && forallb (fun sl => Slot.vtime sl =? 0) (slots_of s).

(** [tab_size] as [ut_init] stores it. *)
Definition clamp `{ut_header} (tab_size : Z) : Z :=
  if (tab_size >? MAX_TAB_SIZE) || (tab_size <? MIN_TAB_SIZE)
  then MAX_TAB_SIZE else tab_size.

(** The slot a successful [ut_spawn_thread] leaves behind. *)
Definition spawned `{ut_header} (stack : ptr) (f : funptr) (a : Z)
    : Slot.ut_slot_t :=
  Slot.Make (Ucontext CtxUcOut (Stack stack STACKSIZE) (McEntry f a)) 0 f a.

(** The three indices of the scheduler. *)
Definition indices (s : state) : Z * Z * Z :=
  (threads_table_size s, next_position s, curr_thread s).

(** The stack pointers the table holds, slot by slot. *)
Definition stacks_of (s : state) : list ptr :=
  (fun sl => ss_sp (uc_stack (Slot.uc sl))) <$> slots_of s.

Fixpoint distinctb (l : list Z) : bool :=
  match l with
  | [] => true
  | x :: rest => negb (existsb (Z.eqb x) rest) && distinctb rest
  end.

(** Every slot of the table owns a stack: the table has
    [threads_table_size] elements, and the table block and the stack blocks
    are live, not NULL, and all different. *)
Definition owned_okb (s : state) : bool :=
  match threads_table s with
  | Some (p, slots) =>
      (Z.of_nat (length slots) =? threads_table_size s)
      && distinctb (p :: stacks_of s)
      && forallb (fun q => negb (q =? NULL) && is_live q s) (p :: stacks_of s)
  | None => false
  end.

End Ut.

(** ** What a call establishes whenever it comes back *)

(** [P] holds of the state a call returns or exits with. *)
Definition on_final {S A} (P : S -> Prop) (o : outcome S A) : Prop :=
  match o with
  | Ret _ s' | Exit _ s' => P s'
  | Undefined _ => True
  end.

(** [P] holds of the value and the state a call returns. *)
Definition on_ret {S A} (P : A -> S -> Prop) (o : outcome S A) : Prop :=
  match o with
  | Ret a s' => P a s'
  | Exit _ _ | Undefined _ => True
  end.

(** The call leaves the observation [proj] as it was. *)
Definition keeps {S A B} (proj : S -> B) (m : M S A) : Prop :=
  forall s, on_final (fun s' => proj s' = proj s) (m s).

(** ** A concrete header and concrete bytes *)

(** One header of the kind the code is written for: 2 to 128 slots, 8 KiB
    stacks, -1 and -2 as the negative results. *)
Definition sample_header : ut_header :=
  UtHeader 128 2 8192 (-1) (-2).

(** A host program of which every function comes back. *)
#[global] Instance sample_host : host := fun _ _ => Returns.

(** Table storage that was in use before: every element still holds 7 ticks
    and a pointer into nowhere. *)
Definition stale (i : Z) : Slot.ut_slot_t :=
  Slot.Make (Ucontext (CtxWild 0) (Stack (4096 + i) 0) (McWild i)) 7 0 0.

(** Table storage that happens to be all zero bytes. *)
Definition zeroed (i : Z) : Slot.ut_slot_t :=
  Slot.Make (Ucontext (CtxWild 0) (Stack 0 0) (McWild 0)) 0 0 0.

(** ** Concrete runs *)

(** The state a call leaves behind (the initial one if there is none). *)
Definition final {A} (o : outcome Ut.state A) : Ut.state :=
  match o with
  | Ret _ s | Exit _ s => s
  | Undefined _ => Ut.initial
  end.

Definition all_ok : Ut.start_answers :=
  Ut.StartAnswers true true true true true 0 true true.

(** The address of some thread function. *)
Definition worker : funptr := 4198400.

(** A program that calls [ut_init(n)], then [ut_spawn_thread(worker, 5)]
    [k] times, then [ut_start()], with every library call succeeding; the
    table storage holds [chunk]. *)
Definition booted (n : Z) (chunk : Z -> Slot.ut_slot_t) (k : nat) : Ut.state :=
  final ((Ut.ut_init (H:=sample_header) n (Some chunk) ;;
          Ut.spawns (H:=sample_header) (repeat (worker, 5, true, true) k) ;;
          Ut.ut_start (H:=sample_header) all_ok) Ut.initial).

(** Two slots, both spawned. *)
Definition full2 : Ut.state := Eval vm_compute in booted 2 stale 2.

(** Three slots, only the first spawned. *)
Definition partial3 : Ut.state := Eval vm_compute in booted 3 stale 1.

(** [ut_init(2)] at program start, and two spawns after it. *)
Definition table2 : Ut.state :=
  Eval vm_compute in
    final (Ut.ut_init (H:=sample_header) 2 (Some stale) Ut.initial).

Definition two_calls : list (funptr * Z * bool * bool) :=
  [(worker, 5, true, true); (worker, 6, true, true)].

Definition spawned2 : Ut.state :=
  Eval vm_compute in final (Ut.spawns (H:=sample_header) two_calls table2).

(** The last tick count before [100 * n] leaves [unsigned long]. *)
Definition last_tick : N := 184467440737095516.

(** * Further runs *)

Module BinsemRuns.
Import Binsem.

(** One call of [binsem_down] per answer of [raise], with the results in
    order. *)
Fixpoint downs (answers : list Z) : M world (list Z) :=
  match answers with
  | [] => mret []
  | a :: rest =>
      r ← binsem_down a;
      rs ← downs rest;
      mret (r :: rs)
  end.

(** A call of one of the three functions of binsem.c. *)
Inductive op : Type :=
| OpInit (init_val : Z)
| OpUp
| OpDown (raise_answer : Z).

Definition call (o : op) : M world unit :=
  match o with
  | OpInit v => binsem_init v
  | OpUp => binsem_up
  | OpDown a => binsem_down a ;; mret tt
  end.

Fixpoint calls (ops : list op) : M world unit :=
  match ops with
  | [] => mret tt
  | o :: rest => call o ;; calls rest
  end.

(** What [n] contended calls of [binsem_down] write to the trace. *)
Fixpoint yields (n : nat) (t : list event) : list event :=
  match n with
  | O => t
  | S n' => yields n' (EvRaise SIGALRM :: EvAlarm 0 :: t)
  end.

End BinsemRuns.

Module UtRuns.
Import Ut.

(** An allocated table with room for one more thread. *)
Definition spawn_okb (s : state) : bool :=
  match threads_table s with
  | Some (p, slots) =>
      is_live p s
      && (Z.of_nat (length slots) =? threads_table_size s)
      && (0 <=? next_position s)
      && (next_position s <? threads_table_size s)
  | None => false
  end.

(** The stack pointers of the slots spawned so far. *)
Definition spawned_stacks (s : state) : list ptr :=
  take (Z.to_nat (next_position s)) (stacks_of s).

(** Every live block lies below the address the next block gets. *)
Definition heap_freshb (s : state) : bool :=
  forallb (fun q => q <? Z.pos (heap_next s)) (heap_live s).

(** Every spawned slot owns a stack: the table has [threads_table_size]
    elements, [next_position] lies within it, the table block and the stacks
    of the spawned slots are live, not NULL and all different, and every live
    block lies below the address the next block gets. *)
Definition owned_prefixb (s : state) : bool :=
  match threads_table s with
  | Some (p, slots) =>
      (Z.of_nat (length slots) =? threads_table_size s)
      && (0 <=? next_position s)
      && (next_position s <=? threads_table_size s)
      && distinctb (p :: spawned_stacks s)
      && forallb (fun q => negb (q =? NULL) && is_live q s)
                 (p :: spawned_stacks s)
      && heap_freshb s
  | None => false
  end.

(** Nothing else is allocated: every live block is the table or the stack
    of a spawned slot. *)
Definition tightb (s : state) : bool :=
  match threads_table s with
  | Some (p, _) =>
      forallb (fun q => existsb (Z.eqb q) (p :: spawned_stacks s))
              (heap_live s)
  | None => false
  end.

(** The state after a successful spawn of [f(a)]: a fresh stack, the slot at
    [next_position] filled in, [next_position] advanced. *)
Definition after_spawn `{ut_header} (f : funptr) (a : Z) (s : state) : state :=
  let i := next_position s in
  let stack := Z.pos (heap_next s) in
  set_next_position (i + 1)
    (set_threads_table
       (Some (match threads_table s with Some (p, _) => p | None => NULL end,
              <[Z.to_nat i := spawned stack f a]> (slots_of s)))
       (add_event (EvMakecontext i f a)
          (add_event (EvGetcontext i true)
             (add_event (EvMalloc stack)
                (set_heap (stack :: heap_live s)
                          (Pos.succ (heap_next s)) s))))).

(** The state after a spawn whose [getcontext] failed: the stack is
    allocated and nothing refers to it. *)
Definition after_lost_stack (s : state) : state :=
  add_event (EvGetcontext (next_position s) false)
    (add_event (EvMalloc (Z.pos (heap_next s)))
       (set_heap (Z.pos (heap_next s) :: heap_live s)
                 (Pos.succ (heap_next s)) s)).

(** The state [ut_start] leaves behind when every set-up call succeeds:
    the timer set, the three handlers installed, the old SIGINT handler
    stored, the alarm armed and [swapcontext] called. *)
Definition started (previous : funptr) (swap_ok : bool) (s : state) : state :=
  (if swap_ok then set_uc_out McSuspended else fun s' => s')
    (add_event (EvSwapcontext None (Some 0) swap_ok)
       (add_event (EvAlarm QUANTUM)
          (add_event (EvSigaction SIGINT true)
             (set_old_sigaction previous
                (add_event (EvSigaction SIGINT true)
                   (add_event (EvSigaction SIGVTALRM true)
                      (add_event (EvSigaction SIGALRM true)
                         (add_event (EvSetitimer true) s)))))))).

(** The calls [ut_start] makes before it arms the alarm. *)
Definition setup_event (e : event) : bool :=
  match e with
  | EvSetitimer _ | EvSigaction _ _ => true
  | _ => false
  end.

(** Every set-up call of [ut_start] succeeds. *)
Definition setup_ok (a : start_answers) : bool :=
  sigfillset_ok a && setitimer_ok a && sigaction_alrm_ok a
  && sigaction_vtalrm_ok a && sigaction_old_ok a && sigaction_int_ok a.

(** SIGVTALRM, or SIGALRM with a [swapcontext] that succeeds. *)
Definition clock_signal (x : Z * bool) : bool :=
  ((fst x =? SIGALRM) && snd x) || (fst x =? SIGVTALRM).

(** The number of virtual-clock ticks among the signals. *)
Definition tick_count (sigs : list (Z * bool)) : Z :=
  Z.of_nat (length (List.filter (fun x => fst x =? SIGVTALRM) sigs)).

(** The counters are in step with the accumulator: none is negative and
    they add up to it. *)
Definition accountedb (s : state) : bool :=
  sched_okb s
  && forallb (fun sl => 0 <=? Slot.vtime sl) (slots_of s)
  && (sum_vtime (slots_of s) =? vtime s).

(** The call does not end the process. *)
Definition returns_or_faults {A} (o : outcome state A) : Prop :=
  match o with
  | Exit _ _ => False
  | Ret _ _ | Undefined _ => True
  end.

(** [ut_init(3)] at program start with [malloc] answering NULL. *)
Definition unallocated3 : state :=
  Eval vm_compute in final (ut_init (H:=sample_header) 3 None initial).

(** Four spawns: the second gets no stack, the third no context. *)
Definition mixed_calls : list (funptr * Z * bool * bool) :=
  [(worker, 5, true, true); (worker, 6, false, true);
   (worker, 7, true, false); (worker, 8, true, true)].

(** [sigaction(SIGVTALRM, ..)] fails, every other call succeeds. *)
Definition vtalrm_refused : start_answers :=
  StartAnswers true true true false true 0 true true.

(** No call of [m] reaches [exit], whatever the state. *)
Definition never_exits {A} (m : M state A) : Prop :=
  forall s, returns_or_faults (m s).

End UtRuns.

(** * Properties of binsem.c *)

Module BinsemFacts.
Import Binsem.

(** C4.  [binsem_down] exchanges the word with 0.  When the word read is 0
    the caller cancels its alarm with [alarm(0)], raises SIGALRM and returns
    what [raise] answered; this is the path taken right after
    [binsem_init(0)].  When the word read is 1 it returns 0 with no call
    made, and the word is left at 0. *)
Theorem binsem_down_paths (answer v : Z) (t : list event) :
  binsem_down answer (World 0 t)
    = Ret answer (World 0 (EvRaise SIGALRM :: EvAlarm 0 :: t))
  /\ binsem_down answer (World 1 t) = Ret 0 (World 0 t)
  /\ (binsem_init 0 ;; binsem_down answer) (World v t)
    = Ret answer (World 0 (EvRaise SIGALRM :: EvAlarm 0 :: t))
  /\ exists r w', binsem_down answer (World v t) = Ret r w' /\ sem w' = 0.
Proof.
  repeat split; try reflexivity.
  unfold binsem_down, xchg, mbind, M_bind; cbn.
  destruct (v =? 0); cbn; eauto.
Qed.

(** C5.  [binsem_up] stores 1 whatever the word held, and a [binsem_down]
    right after it returns 0 without [alarm] or [raise]: the trace is the
    one from before. *)
Theorem binsem_up_then_down (answer v : Z) (t : list event) :
  binsem_up (World v t) = Ret tt (World 1 t)
  /\ (binsem_up ;; binsem_down answer) (World v t) = Ret 0 (World 0 t).
Proof. split; reflexivity. Qed.

End BinsemFacts.

(** * Properties of ut.c *)

Module UtFacts.
Import Ut.

Section Facts.
Context `{ut_header} {prog : host}.

(** ** Running the monad *)

Lemma bind_run {S A B} (m : M S A) (k : A -> M S B) (s : S) :
  (m ≫= k) s
  = match m s with
    | Ret a s' => k a s'
    | Exit c s' => Exit c s'
    | Undefined f => Undefined f
    end.
Proof. reflexivity. Qed.

Lemma bind_ret {S A B} (m : M S A) (k : A -> M S B) (s s' : S) (a : A) :
  m s = Ret a s' -> (m ≫= k) s = k a s'.
Proof. intros E. rewrite bind_run, E. reflexivity. Qed.

Lemma bind_assoc {S A B C} (m : M S A) (f : A -> M S B) (g : B -> M S C) s :
  ((m ≫= f) ≫= g) s = (m ≫= (fun a => f a ≫= g)) s.
Proof. rewrite !bind_run. destruct (m s); reflexivity. Qed.

Lemma bind_get {S B} (k : S -> M S B) s : (get ≫= k) s = k s s.
Proof. reflexivity. Qed.

Lemma bind_modify {S B} (f : S -> S) (k : unit -> M S B) s :
  (modify f ≫= k) s = k tt (f s).
Proof. reflexivity. Qed.

Lemma bind_mret {S A B} (a : A) (k : A -> M S B) s : (mret a ≫= k) s = k a s.
Proof. reflexivity. Qed.

Ltac mstep :=
  first [ rewrite bind_assoc | rewrite bind_get | rewrite bind_modify
        | rewrite bind_mret ].

Ltac unfold_m :=
  unfold mbind, M_bind, mret, M_ret, get, modify, undefined, exit,
         log, alarm, perror in *.

(** ** What holds when a call comes back *)

Lemma on_final_bind {S A B} (m : M S A) (k : A -> M S B) (Q P : S -> Prop) s :
  on_final Q (m s) ->
  (forall a s1, Q s1 -> on_final P (k a s1)) ->
  (forall s1, Q s1 -> P s1) ->
  on_final P ((m ≫= k) s).
Proof.
  intros Hm Hk Hx. rewrite bind_run. destruct (m s); cbn in *; auto.
Qed.

Lemma on_final_impl {S A} (P Q : S -> Prop) (o : outcome S A) :
  (forall s, P s -> Q s) -> on_final P o -> on_final Q o.
Proof. intros HPQ. destruct o; cbn; auto. Qed.

Lemma on_final_True {S A} (o : outcome S A) : on_final (fun _ => True) o.
Proof. destruct o; exact I. Qed.

Lemma on_ret_bind {S A B} (m : M S A) (k : A -> M S B) (Q : S -> Prop)
    (P : B -> S -> Prop) s :
  on_final Q (m s) ->
  (forall a s1, Q s1 -> on_ret P (k a s1)) ->
  on_ret P ((m ≫= k) s).
Proof.
  intros Hm Hk. rewrite bind_run. destruct (m s); cbn in *; auto.
Qed.

Lemma on_ret_impl {S A} (P Q : A -> S -> Prop) (o : outcome S A) :
  (forall a s, P a s -> Q a s) -> on_ret P o -> on_ret Q o.
Proof. intros HPQ. destruct o; cbn; auto. Qed.

Lemma keeps_bind {S A B C} (proj : S -> C) (m : M S A) (k : A -> M S B) :
  keeps proj m -> (forall a, keeps proj (k a)) -> keeps proj (m ≫= k).
Proof.
  intros Hm Hk s.
  apply (on_final_bind m k (fun s' => proj s' = proj s)); auto.
  intros a s1 E. specialize (Hk a s1).
  destruct (k a s1); cbn in *; congruence.
Qed.

Lemma keeps_ret {S A C} (proj : S -> C) (a : A) : keeps proj (mret a : M S A).
Proof. intros s. reflexivity. Qed.

Lemma keeps_undefined {S A C} (proj : S -> C) f :
  keeps proj (undefined f : M S A).
Proof. intros s. exact I. Qed.

Lemma keeps_exit {S A C} (proj : S -> C) c : keeps proj (exit c : M S A).
Proof. intros s. reflexivity. Qed.

Lemma keeps_get {S C} (proj : S -> C) : keeps proj (get : M S S).
Proof. intros s. reflexivity. Qed.

Lemma keeps_modify {S C} (proj : S -> C) (f : S -> S) :
  (forall s, proj (f s) = proj s) -> keeps proj (modify f).
Proof. intros Hf s. apply Hf. Qed.

Lemma keeps_for_each {S C} (proj : S -> C) (idxs : list Z) body :
  (forall i, keeps proj (body i)) -> keeps proj (for_each idxs body : M S unit).
Proof.
  intros Hb. induction idxs as [|i rest IH]; cbn [for_each].
  - apply keeps_ret.
  - apply keeps_bind; auto.
Qed.

Ltac keeps_step :=
  first
    [ apply keeps_ret | apply keeps_undefined | apply keeps_exit
    | apply keeps_get
    | apply keeps_modify; intros ?; reflexivity
    | apply keeps_for_each; intros ?
    | apply keeps_bind; [|intros ?] ].

Ltac keeps_auto := repeat keeps_step.

(** ** The table and its slots *)

Lemma sched_okb_true s :
  sched_okb s = true ->
  exists p slots,
    threads_table s = Some (p, slots) /\ is_live p s = true
    /\ Z.of_nat (length slots) = threads_table_size s
    /\ 0 <= curr_thread s < threads_table_size s
    /\ threads_table_size s <= INT_MAX.
Proof.
  unfold sched_okb. destruct (threads_table s) as [[p slots]|]; [|discriminate].
  rewrite !andb_true_iff. intros [[[[Hl Hn] H0] H1] H2].
  exists p, slots. repeat split; auto; lia.
Qed.

Lemma sched_okb_intro s p slots :
  threads_table s = Some (p, slots) -> is_live p s = true ->
  Z.of_nat (length slots) = threads_table_size s ->
  0 <= curr_thread s < threads_table_size s ->
  threads_table_size s <= INT_MAX ->
  sched_okb s = true.
Proof.
  intros Ht Hl Hn Hc Hm. unfold sched_okb. rewrite Ht, Hl.
  rewrite !andb_true_iff. repeat split; lia.
Qed.

Lemma lookup_in_table (slots : list Slot.ut_slot_t) (i n : Z) :
  Z.of_nat (length slots) = n -> 0 <= i < n ->
  exists sl, slots !! Z.to_nat i = Some sl.
Proof.
  intros Hn Hi. apply lookup_lt_is_Some_2. lia.
Qed.

Lemma load_slot_ret s p slots i sl :
  threads_table s = Some (p, slots) -> is_live p s = true ->
  0 <= i -> slots !! Z.to_nat i = Some sl ->
  load_slot i s = Ret sl s.
Proof.
  intros Ht Hl Hi Hs. unfold load_slot, table. unfold_m.
  rewrite Ht, Hl. cbn.
  destruct (Z.ltb_spec i 0); [lia|]. rewrite Hs. reflexivity.
Qed.

Lemma update_slot_ret s p slots i sl f :
  threads_table s = Some (p, slots) -> is_live p s = true ->
  0 <= i -> slots !! Z.to_nat i = Some sl ->
  update_slot i f s
  = Ret tt (set_threads_table (Some (p, <[Z.to_nat i := f sl]> slots)) s).
Proof.
  intros Ht Hl Hi Hs. unfold update_slot.
  rewrite (bind_ret _ _ _ _ _ (load_slot_ret s p slots i sl Ht Hl Hi Hs)).
  unfold table. unfold_m. rewrite Ht, Hl. reflexivity.
Qed.

Lemma update_slot_again s p (slots : list Slot.ut_slot_t) i x f :
  threads_table s = Some (p, <[Z.to_nat i := x]> slots) ->
  is_live p s = true -> 0 <= i -> (Z.to_nat i < length slots)%nat ->
  update_slot i f s
  = Ret tt (set_threads_table (Some (p, <[Z.to_nat i := f x]> slots)) s).
Proof.
  intros Ht Hl Hi Hlen.
  rewrite (update_slot_ret s p _ i x f Ht Hl Hi)
    by (apply list_lookup_insert_eq; exact Hlen).
  rewrite list_insert_insert_eq. reflexivity.
Qed.

(** ** The three indices *)

Lemma indices_eq (s' s : state) :
  indices s' = indices s ->
  threads_table_size s' = threads_table_size s
  /\ next_position s' = next_position s
  /\ curr_thread s' = curr_thread s.
Proof. unfold indices. intros E. injection E as E1 E2 E3. auto. Qed.

Lemma indices_eq' (s' : state) (a b c : Z) :
  indices s' = (a, b, c) ->
  threads_table_size s' = a /\ next_position s' = b /\ curr_thread s' = c.
Proof. unfold indices. intros E. injection E as E1 E2 E3. auto. Qed.

Lemma keeps_indices_log e : keeps indices (log e).
Proof. apply keeps_modify. reflexivity. Qed.

Lemma keeps_indices_malloc ok : keeps indices (malloc ok).
Proof.
  unfold malloc. destruct ok.
  - apply keeps_bind; [apply keeps_get|intros s].
    apply keeps_bind; [keeps_auto|intros _].
    apply keeps_bind; [apply keeps_indices_log|intros _]. keeps_auto.
  - apply keeps_bind; [apply keeps_indices_log|intros _]. keeps_auto.
Qed.

Lemma keeps_indices_free p : keeps indices (free p).
Proof.
  unfold free. apply keeps_bind; [apply keeps_indices_log|intros _].
  destruct (p =? NULL); keeps_auto.
  match goal with |- keeps _ (if ?b then _ else _) => destruct b end;
    keeps_auto.
Qed.

Lemma keeps_indices_table : keeps indices table.
Proof.
  unfold table. keeps_auto.
  match goal with a : state |- _ => destruct (threads_table a) as [[p slots]|] end;
    keeps_auto.
  match goal with |- keeps _ (if ?b then _ else _) => destruct b end;
    keeps_auto.
Qed.

Lemma keeps_indices_load_slot i : keeps indices (load_slot i).
Proof.
  unfold load_slot. apply keeps_bind; [apply keeps_indices_table|intros t].
  destruct (i <? 0); keeps_auto.
  destruct (t.2 !! Z.to_nat i); keeps_auto.
Qed.

Lemma keeps_indices_update_slot i f : keeps indices (update_slot i f).
Proof.
  unfold update_slot. apply keeps_bind; [apply keeps_indices_load_slot|intros sl].
  apply keeps_bind; [apply keeps_indices_table|intros t]. keeps_auto.
Qed.

Lemma keeps_indices_release_memory : keeps indices release_memory.
Proof.
  unfold release_memory. apply keeps_bind; [apply keeps_get|intros s].
  destruct (threads_table s) as [[p slots]|].
  - apply keeps_bind; [|intros _].
    + apply keeps_for_each. intros i.
      apply keeps_bind; [apply keeps_indices_load_slot|intros sl].
      apply keeps_indices_free.
    + apply keeps_bind; [apply keeps_indices_free|intros _]. keeps_auto.
  - unfold perror. apply keeps_bind; [apply keeps_indices_log|intros _].
    keeps_auto.
Qed.

Lemma keeps_indices_swapcontext a b ok : keeps indices (swapcontext a b ok).
Proof.
  unfold swapcontext.
  apply keeps_bind; [apply keeps_indices_load_slot|intros _].
  apply keeps_bind; [apply keeps_indices_load_slot|intros _].
  apply keeps_bind; [apply keeps_indices_log|intros _].
  destruct ok; [|keeps_auto].
  apply keeps_bind; [apply keeps_indices_update_slot|intros _]. keeps_auto.
Qed.

Ltac ret_step :=
  eapply on_ret_bind;
  [ first [ apply keeps_indices_update_slot | apply keeps_indices_log
          | apply keeps_indices_load_slot | apply keeps_indices_malloc ]
  | let E := fresh "E" in
    intros ? ? E; apply indices_eq in E; destruct E as (? & ? & ?) ].

(** ** The preemption tick *)

Lemma next_in_range (c n : Z) :
  0 <= c < n -> Z.rem (c + 1) n = (c + 1) mod n /\ 0 <= (c + 1) mod n < n.
Proof.
  intros Hc. split.
  - apply Z.rem_mod_nonneg; lia.
  - apply Z.mod_pos_bound. lia.
Qed.

(** The handler on SIGALRM, on a table that is there. *)
Lemma handler_sigalrm_ret s p slots sl ok :
  threads_table s = Some (p, slots) -> is_live p s = true ->
  Z.of_nat (length slots) = threads_table_size s ->
  0 <= curr_thread s < threads_table_size s ->
  threads_table_size s <= INT_MAX ->
  slots !! Z.to_nat (curr_thread s) = Some sl ->
  let next := (curr_thread s + 1) mod threads_table_size s in
  let s1 :=
    add_event (EvSwapcontext (Some (curr_thread s)) (Some next) ok)
      (set_curr_thread next (add_event (EvAlarm QUANTUM) s)) in
  thread_signals_handler SIGALRM ok s
  = if ok
    then Ret tt (set_threads_table
                   (Some (p, <[Z.to_nat (curr_thread s) :=
                                 Slot.set_mcontext McSuspended sl]> slots)) s1)
    else Exit EXIT_FAILURE (add_event EvPerror s1).
Proof.
  intros Ht Hl Hn Hc Hmax Hsl next s1.
  destruct (next_in_range _ _ Hc) as [Hrem Hnext]. fold next in Hrem, Hnext.
  destruct (lookup_in_table slots next _ Hn Hnext) as [sl' Hsl'].
  unfold thread_signals_handler. cbn [Z.eqb SIGALRM Pos.eqb].
  unfold alarm, log. rewrite !bind_run. cbn [modify get].
  rewrite !bind_run. cbn [get curr_thread add_event threads_table_size].
  destruct (Z.gtb_spec (curr_thread s + 1) INT_MAX) as [Hgt|_]; [lia|].
  destruct (Z.eqb_spec (threads_table_size s) 0) as [Hz|_]; [lia|].
  rewrite Hrem. rewrite !bind_run. cbn [modify get].
  rewrite !bind_run. cbn [get curr_thread set_curr_thread].
  unfold swapcontext. rewrite !bind_run.
  rewrite (load_slot_ret _ p slots (curr_thread s) sl) by (auto; lia).
  rewrite !bind_run.
  rewrite (load_slot_ret _ p slots next sl') by (auto; lia).
  rewrite !bind_run. unfold log. cbn [modify].
  destruct ok.
  - rewrite !bind_run.
    rewrite (update_slot_ret _ p slots (curr_thread s) sl) by (auto; lia).
    reflexivity.
  - reflexivity.
Qed.

Lemma keeps_indices_call_handler h signal :
  keeps indices (call_handler h signal).
Proof.
  unfold call_handler.
  apply keeps_bind; [apply keeps_indices_log|intros _].
  destruct (h =? SIG_IGN); [keeps_auto|].
  destruct (call_through h signal); keeps_auto.
Qed.

(** Signals other than SIGALRM leave the three indices alone. *)
Lemma handler_keeps_indices signal ok :
  signal <> SIGALRM -> keeps indices (thread_signals_handler signal ok).
Proof.
  intros Hs. unfold thread_signals_handler.
  destruct (Z.eqb_spec signal SIGALRM) as [|_]; [contradiction|].
  destruct (signal =? SIGVTALRM).
  { apply keeps_bind; [apply keeps_get|intros s].
    apply keeps_bind; [keeps_auto|intros _]. apply keeps_indices_update_slot. }
  destruct (signal =? SIGINT); [|keeps_auto].
  unfold alarm.
  apply keeps_bind; [apply keeps_indices_log|intros _].
  apply keeps_bind; [apply keeps_get|intros s].
  apply keeps_bind; [|intros _].
  { destruct (old_sigaction s =? 0);
      [keeps_auto|apply keeps_indices_call_handler]. }
  apply keeps_bind; [apply keeps_indices_release_memory|intros _]. keeps_auto.
Qed.

(** On SIGALRM the running index is advanced and the other two indices are
    left alone. *)
Lemma handler_sigalrm_indices ok s :
  on_final (fun s' =>
              indices s'
              = (threads_table_size s, next_position s,
                 Z.rem (curr_thread s + 1) (threads_table_size s))
              /\ threads_table_size s <> 0)
           (thread_signals_handler SIGALRM ok s).
Proof.
  unfold thread_signals_handler. cbn [Z.eqb SIGALRM Pos.eqb].
  unfold alarm, log. rewrite !bind_run. cbn [modify get].
  rewrite !bind_run. cbn [get curr_thread add_event threads_table_size].
  destruct (curr_thread s + 1 >? INT_MAX); [exact I|].
  destruct (Z.eqb_spec (threads_table_size s) 0) as [|Hnz]; [exact I|].
  rewrite !bind_run. cbn [modify get]. rewrite !bind_run. cbn [get].
  set (s1 := set_curr_thread _ _).
  assert (K : keeps indices
            (r ← swapcontext (curr_thread s) (curr_thread s1) ok;
             if r =? -1 then perror ;; exit EXIT_FAILURE else mret tt)).
  { apply keeps_bind; [apply keeps_indices_swapcontext|intros r].
    destruct (r =? -1); [|keeps_auto].
    unfold perror. apply keeps_bind; [apply keeps_indices_log|intros _].
    keeps_auto. }
  eapply on_final_impl; [|exact (K s1)].
  intros s' E. cbn beta in E. rewrite E. split; [reflexivity|assumption].
Qed.

Lemma deliver_keeps_range sigs : forall s,
  0 <= curr_thread s < threads_table_size s ->
  on_final (fun s' => 0 <= curr_thread s' < threads_table_size s'
                      /\ threads_table_size s' = threads_table_size s)
           (deliver sigs s).
Proof.
  induction sigs as [|[signal ok] rest IH]; intros s Hr; cbn [deliver].
  - cbn. auto.
  - apply (on_final_bind _ _
             (fun s' => 0 <= curr_thread s' < threads_table_size s'
                        /\ threads_table_size s' = threads_table_size s)).
    + destruct (Z.eq_dec signal SIGALRM) as [->|Hne].
      * eapply on_final_impl; [|apply handler_sigalrm_indices].
        intros s' [E Hnz]. unfold indices in E. injection E as E1 E2 E3.
        destruct (next_in_range _ _ Hr) as [Hrem Hn].
        rewrite Hrem in E3. lia.
      * eapply on_final_impl; [|apply (handler_keeps_indices signal ok Hne s)].
        intros s' E. unfold indices in E. injection E as E1 E2 E3. lia.
    + intros _ s1 [Hr1 Hs1]. eapply on_final_impl; [|apply (IH s1 Hr1)].
      intros s' [? ?]. split; [assumption|congruence].
    + auto.
Qed.

(** ** The virtual-clock tick *)

Lemma small_mod (x : Z) : 0 <= x < ULONG_MODULUS -> x mod ULONG_MODULUS = x.
Proof. apply Z.mod_small. Qed.

Lemma sum_vtime_cons sl (slots : list Slot.ut_slot_t) :
  sum_vtime (sl :: slots) = Slot.vtime sl + sum_vtime slots.
Proof. reflexivity. Qed.

Lemma sum_vtime_insert (slots : list Slot.ut_slot_t) (i : nat) sl sl' :
  slots !! i = Some sl ->
  sum_vtime (<[i := sl']> slots)
  = sum_vtime slots - Slot.vtime sl + Slot.vtime sl'.
Proof.
  revert i. induction slots as [|x rest IH]; intros [|i] Hl;
    try discriminate.
  - injection Hl as ->.
    change (<[0%nat:=sl']> (sl :: rest)) with (sl' :: rest).
    rewrite !sum_vtime_cons. lia.
  - change (<[S i:=sl']> (x :: rest)) with (x :: <[i:=sl']> rest).
    rewrite !sum_vtime_cons. rewrite (IH i Hl). lia.
Qed.

Lemma sum_vtime_zero (slots : list Slot.ut_slot_t) :
  forallb (fun sl => Slot.vtime sl =? 0) slots = true -> sum_vtime slots = 0.
Proof.
  induction slots as [|x rest IH]; [reflexivity|].
  rewrite sum_vtime_cons. cbn [forallb].
  rewrite andb_true_iff. intros [Hx Hr]. rewrite (IH Hr). lia.
Qed.

Lemma lookup_vtime_zero (slots : list Slot.ut_slot_t) (i : nat) sl :
  forallb (fun sl => Slot.vtime sl =? 0) slots = true ->
  slots !! i = Some sl -> Slot.vtime sl = 0.
Proof.
  revert i. induction slots as [|x rest IH]; intros [|i]; cbn;
    try discriminate; rewrite andb_true_iff; intros [Hx Hr] Hl.
  - injection Hl as <-. lia.
  - eauto.
Qed.

(** The handler on SIGVTALRM, on a table that is there. *)
Lemma handler_sigvtalrm_ret s p slots sl ok :
  threads_table s = Some (p, slots) -> is_live p s = true ->
  0 <= curr_thread s ->
  slots !! Z.to_nat (curr_thread s) = Some sl ->
  thread_signals_handler SIGVTALRM ok s
  = Ret tt (set_threads_table
              (Some (p, <[Z.to_nat (curr_thread s) :=
                            Slot.set_vtime
                              (ulong_add (Slot.vtime sl) INTERVAL_MICRO) sl]>
                          slots))
              (set_vtime (ulong_add (vtime s) INTERVAL_MICRO) s)).
Proof.
  intros Ht Hl Hc Hsl. unfold thread_signals_handler.
  cbn [Z.eqb SIGALRM SIGVTALRM Pos.eqb].
  rewrite !bind_run. cbn [get modify]. rewrite !bind_run. cbn [modify].
  rewrite (update_slot_ret _ p slots (curr_thread s) sl) by auto.
  reflexivity.
Qed.

(** One tick, seen through the observations. *)
Lemma tick_observed s ok :
  sched_okb s = true ->
  exists s',
    thread_signals_handler SIGVTALRM ok s = Ret tt s'
    /\ vtime s' = ulong_add (vtime s) INTERVAL_MICRO
    /\ slot_vtime (Z.to_nat (curr_thread s)) s'
       = ulong_add (slot_vtime (Z.to_nat (curr_thread s)) s) INTERVAL_MICRO
    /\ (forall j, j <> Z.to_nat (curr_thread s) ->
                  slot_vtime j s' = slot_vtime j s)
    /\ sum_vtime (slots_of s')
       = sum_vtime (slots_of s)
         - slot_vtime (Z.to_nat (curr_thread s)) s
         + slot_vtime (Z.to_nat (curr_thread s)) s'
    /\ trace s' = trace s
    /\ indices s' = indices s
    /\ sched_okb s' = true.
Proof.
  intros Hok.
  destruct (sched_okb_true s Hok) as (p & slots & Ht & Hl & Hn & Hc & Hm).
  destruct (lookup_in_table slots (curr_thread s) _ Hn Hc) as [sl Hsl].
  eexists. split.
  { apply (handler_sigvtalrm_ret s p slots sl ok); auto; lia. }
  assert (Hlen : (Z.to_nat (curr_thread s) < length slots)%nat) by lia.
  unfold slot_vtime, slots_of. cbn [threads_table set_threads_table set_vtime].
  rewrite Ht, Hsl. rewrite list_lookup_insert_eq by exact Hlen.
  cbn [Slot.vtime Slot.set_vtime].
  repeat split.
  - intros j Hj. rewrite list_lookup_insert_ne by auto. reflexivity.
  - apply sum_vtime_insert. exact Hsl.
  - eapply sched_okb_intro; cbn; eauto. rewrite length_insert. exact Hn.
Qed.

Lemma ticks_succ n s :
  ticks (N.succ n) s = (ticks n ;; thread_signals_handler SIGVTALRM true) s.
Proof. unfold ticks. rewrite N.iter_succ. reflexivity. Qed.

(** From a fresh, fully spawned table, [n] ticks put [100 n] (in
    [unsigned long]) into the accumulator and into the running slot. *)
Lemma ticks_fresh s n :
  fresh_fullb s = true ->
  exists s',
    ticks n s = Ret tt s'
    /\ sched_okb s' = true
    /\ indices s' = indices s
    /\ trace s' = trace s
    /\ vtime s' = (INTERVAL_MICRO * Z.of_N n) mod ULONG_MODULUS
    /\ slot_vtime (Z.to_nat (curr_thread s)) s'
       = (INTERVAL_MICRO * Z.of_N n) mod ULONG_MODULUS
    /\ sum_vtime (slots_of s') = (INTERVAL_MICRO * Z.of_N n) mod ULONG_MODULUS
    /\ (forall j, j <> Z.to_nat (curr_thread s) -> slot_vtime j s' = 0).
Proof.
  intros Hf. unfold fresh_fullb in Hf. rewrite !andb_true_iff in Hf.
  destruct Hf as [[[Hok Hnp] Hv] Hz].
  induction n as [|n IH] using N.peano_ind.
  - exists s. split; [reflexivity|]. split; [exact Hok|].
    assert (Hj : forall j, slot_vtime j s = 0).
    { intros j. unfold slot_vtime. destruct (slots_of s !! j) eqn:E; [|reflexivity].
      eapply lookup_vtime_zero; eauto. }
    apply Z.eqb_eq in Hv.
    repeat split; auto.
    rewrite sum_vtime_zero by exact Hz. reflexivity.
  - destruct IH as (s1 & E1 & Hok1 & Hi1 & Ht1 & Hv1 & Hc1 & Hs1 & Hj1).
    assert (Ec : curr_thread s1 = curr_thread s).
    { unfold indices in Hi1. congruence. }
    destruct (tick_observed s1 true Hok1)
      as (s2 & E2 & Hv2 & Hc2 & Hj2 & Hs2 & Ht2 & Hi2 & Hok2).
    rewrite Ec in *.
    assert (Harith : forall x,
              x = (INTERVAL_MICRO * Z.of_N n) mod ULONG_MODULUS ->
              ulong_add x INTERVAL_MICRO
              = (INTERVAL_MICRO * Z.of_N (N.succ n)) mod ULONG_MODULUS).
    { intros x ->. unfold ulong_add. rewrite Zplus_mod_idemp_l.
      f_equal. lia. }
    exists s2. rewrite ticks_succ, (bind_ret _ _ _ _ _ E1).
    split; [exact E2|]. split; [exact Hok2|].
    split; [congruence|]. split; [congruence|].
    split; [rewrite Hv2; auto|].
    split; [rewrite Hc2; auto|].
    split.
    + rewrite Hs2, Hs1, Hc1, Hc2. rewrite (Harith _ Hc1). lia.
    + intros j Hj. rewrite Hj2 by exact Hj. auto.
Qed.

(** ** ut_spawn_thread *)

(** A spawn into a table that is there, with room left and both library
    calls succeeding. *)
Lemma spawn_ret s p slots f a :
  threads_table s = Some (p, slots) -> is_live p s = true ->
  0 <= next_position s < Z.of_nat (length slots) ->
  next_position s <> threads_table_size s ->
  let i := next_position s in
  let stack := Z.pos (heap_next s) in
  ut_spawn_thread f a true true s
  = Ret i
      (set_next_position (i + 1)
         (set_threads_table
            (Some (p, <[Z.to_nat i := spawned stack f a]> slots))
            (add_event (EvMakecontext i f a)
               (add_event (EvGetcontext i true)
                  (add_event (EvMalloc stack)
                     (set_heap (stack :: heap_live s)
                               (Pos.succ (heap_next s)) s)))))).
Proof.
  intros Ht Hl Hi Hne i stack.
  destruct (lookup_in_table slots i _ eq_refl Hi) as [sl Hsl].
  assert (Hlen : (Z.to_nat i < length slots)%nat) by lia.
  unfold ut_spawn_thread. rewrite bind_get.
  destruct (Z.eqb_spec (next_position s) (threads_table_size s)) as [|_];
    [contradiction|].
  unfold malloc, log. repeat mstep.
  change (Z.pos (heap_next s) =? NULL) with false. cbv iota.
  set (s1 := add_event (EvMalloc _) _).
  assert (Hl1 : forall e, is_live p (add_event e s1) = true).
  { intros e. unfold is_live in *. cbn. rewrite Hl. apply orb_true_r. }
  assert (Hl0 : is_live p s1 = true).
  { unfold is_live in *. cbn. rewrite Hl. apply orb_true_r. }
  rewrite (bind_ret _ _ _ _ _ (load_slot_ret s1 p slots i sl Ht Hl0 (proj1 Hi) Hsl)).
  repeat mstep. cbn [negb].
  erewrite bind_ret
    by (apply (update_slot_ret _ p slots i sl); auto; lia).
  do 3 (erewrite bind_ret
          by (eapply update_slot_again; try reflexivity; auto; lia)).
  repeat mstep.
  do 4 (erewrite bind_ret
          by (eapply update_slot_again; try reflexivity; auto; lia)).
  repeat mstep. reflexivity.
Qed.

(** A spawn into a table with no room left. *)
Lemma spawn_full s f a stack_ok getcontext_ok :
  next_position s = threads_table_size s ->
  ut_spawn_thread f a stack_ok getcontext_ok s = Ret TAB_FULL s.
Proof.
  intros E. unfold ut_spawn_thread. rewrite bind_get.
  rewrite E, Z.eqb_refl. reflexivity.
Qed.

(** What a call of [ut_spawn_thread] can return, and what has happened to
    [next_position] by then. *)
Lemma spawn_cases f a stack_ok getcontext_ok s :
  on_ret (fun r s' =>
            threads_table_size s' = threads_table_size s
            /\ curr_thread s' = curr_thread s
            /\ ((r = TAB_FULL /\ s' = s)
                \/ (r = SYS_ERR /\ next_position s' = next_position s)
                \/ (r = next_position s
                    /\ next_position s' = next_position s + 1
                    /\ next_position s <> threads_table_size s)))
         (ut_spawn_thread f a stack_ok getcontext_ok s).
Proof.
  unfold ut_spawn_thread. rewrite bind_get.
  destruct (Z.eqb_spec (next_position s) (threads_table_size s)) as [E|Hne].
  { cbn. auto. }
  eapply on_ret_bind; [apply (keeps_indices_malloc stack_ok s)|].
  intros stack s1 E1. apply indices_eq in E1. destruct E1 as (? & ? & ?).
  destruct (stack =? NULL).
  { cbn. split; [congruence|]. split; [congruence|]. right. left. split; [reflexivity|congruence]. }
  do 2 ret_step.
  destruct getcontext_ok; cbn [negb].
  2:{ cbn. split; [congruence|]. split; [congruence|]. right. left.
      split; [reflexivity|congruence]. }
  do 9 ret_step.
  rewrite bind_modify. unfold mret, M_ret. cbn.
  split; [congruence|]. split; [congruence|]. right. right.
  split; [reflexivity|]. split; [reflexivity|assumption].
Qed.

Lemma spawns_count calls : forall s,
  SYS_ERR < 0 -> TAB_FULL < 0 -> 0 <= next_position s ->
  on_ret (fun ids s' =>
            threads_table_size s' = threads_table_size s
            /\ (Forall (fun id => 0 <= id) ids ->
                next_position s' = next_position s + Z.of_nat (length calls)))
         (spawns calls s).
Proof.
  intros s Hsys Hfull. revert s.
  induction calls as [|[[[f a] o1] o2] rest IH]; intros s Hnp; cbn [spawns].
  - cbn. split; [reflexivity|]. intros _. lia.
  - rewrite bind_run. pose proof (spawn_cases f a o1 o2 s) as Hc.
    destruct (ut_spawn_thread f a o1 o2 s) as [r s1|c s1|ft]; cbn in Hc;
      [|exact I|exact I].
    destruct Hc as (Hsz & _ & Hc).
    assert (Hnp1 : 0 <= next_position s1).
    { destruct Hc as [[_ ->]|[[_ E]|[_ [E _]]]]; lia. }
    rewrite bind_run. specialize (IH s1 Hnp1).
    destruct (spawns rest s1) as [ids s2|c s2|ft]; cbn in IH |- *;
      [|exact I|exact I].
    unfold mret, M_ret. cbn [on_ret].
    destruct IH as [Hsz2 IH]. split; [congruence|].
    intros Hall. inversion Hall as [|? ? Hr Hall']; subst.
    specialize (IH Hall').
    destruct Hc as [[E _]|[[E _]|[_ [E _]]]]; [lia|lia|].
    rewrite IH, E. cbn [length]. lia.
Qed.

(** As many spawns as fit, every library call succeeding: the calls return
    the next identifiers in order, and the slots they fill start at 0
    ticks. *)
Lemma spawns_fill (calls : list (funptr * Z * bool * bool)) :
  forall s p slots,
    forallb (fun c => snd (fst c) && snd c) calls = true ->
    threads_table s = Some (p, slots) -> is_live p s = true ->
    Z.of_nat (length slots) = threads_table_size s ->
    0 <= next_position s ->
    next_position s + Z.of_nat (length calls) <= threads_table_size s ->
    exists s' slots',
      spawns calls s
      = Ret (seqZ (next_position s) (Z.of_nat (length calls))) s'
      /\ indices s'
         = (threads_table_size s,
            next_position s + Z.of_nat (length calls), curr_thread s)
      /\ vtime s' = vtime s
      /\ threads_table s' = Some (p, slots')
      /\ is_live p s' = true
      /\ length slots' = length slots
      /\ forall i sl,
           slots' !! i = Some sl ->
           (Z.of_nat i < next_position s -> slots !! i = Some sl)
           /\ (next_position s <= Z.of_nat i
                 < next_position s + Z.of_nat (length calls) ->
               Slot.vtime sl = 0)
           /\ (next_position s + Z.of_nat (length calls) <= Z.of_nat i ->
               slots !! i = Some sl).
Proof.
  induction calls as [|[[[f a] o1] o2] rest IH];
    intros s p slots Hall Ht Hl Hn Hnp Hfit.
  - exists s, slots. cbn [length spawns].
    split; [reflexivity|]. split; [unfold indices; f_equal; f_equal; lia|].
    split; [reflexivity|]. split; [exact Ht|]. split; [exact Hl|].
    split; [reflexivity|]. intros j sl Hj.
    split; [auto|]. split; [cbn; lia|auto].
  - cbn [forallb fst snd] in Hall. apply andb_true_iff in Hall.
    destruct Hall as [Ho Hall]. apply andb_true_iff in Ho.
    destruct Ho as [-> ->]. cbn [length] in Hfit |- *.
    assert (Hroom : next_position s <> threads_table_size s) by lia.
    assert (Hin : 0 <= next_position s < Z.of_nat (length slots)) by lia.
    pose proof (spawn_ret s p slots f a Ht Hl Hin Hroom) as Es.
    cbv zeta in Es.
    set (s1 := set_next_position _ _) in Es.
    set (slots1 := <[Z.to_nat (next_position s) :=
                       spawned (Z.pos (heap_next s)) f a]> slots).
    assert (Ht1 : threads_table s1 = Some (p, slots1)) by reflexivity.
    assert (Hl1 : is_live p s1 = true).
    { unfold is_live in *. cbn. rewrite Hl. apply orb_true_r. }
    assert (Hlen1 : length slots1 = length slots) by apply length_insert.
    destruct (IH s1 p slots1 Hall Ht1 Hl1) as
      (s' & slots' & Er & Hi' & Hv' & Ht' & Hl' & Hlen' & Hsl');
      [cbn; lia | cbn; lia | cbn; lia |].
    exists s', slots'. cbn [spawns].
    rewrite (bind_ret _ _ _ _ _ Es), (bind_ret _ _ _ _ _ Er).
    split.
    { unfold mret, M_ret. f_equal.
      rewrite (seqZ_cons (next_position s)) by lia.
      replace (Z.pred (Z.of_nat (S (length rest))))
        with (Z.of_nat (length rest)) by lia.
      reflexivity. }
    split.
    { rewrite Hi'. cbn. unfold indices. f_equal. f_equal. lia. }
    split; [rewrite Hv'; reflexivity|].
    split; [exact Ht'|]. split; [exact Hl'|]. split; [congruence|].
    intros i sl Hi. destruct (Hsl' i sl Hi) as (Hlo & Hmid & Hhi).
    change (next_position s1) with (next_position s + 1) in Hlo, Hmid, Hhi.
    destruct (decide (i = Z.to_nat (next_position s))) as [->|Hne].
    + split; [intros; lia|]. split; [|intros; lia]. intros _.
      assert (E : slots1 !! Z.to_nat (next_position s) = Some sl)
        by (apply Hlo; lia).
      unfold slots1 in E. rewrite list_lookup_insert_eq in E by lia.
      injection E as <-. reflexivity.
    + split; [|split].
      * intros Hi0. rewrite <- (list_lookup_insert_ne slots
                                  (Z.to_nat (next_position s)) i
                                  (spawned (Z.pos (heap_next s)) f a))
          by auto.
        apply Hlo. lia.
      * intros Hr. apply Hmid. lia.
      * intros Hr. rewrite <- (list_lookup_insert_ne slots
                                 (Z.to_nat (next_position s)) i
                                 (spawned (Z.pos (heap_next s)) f a))
          by auto.
        apply Hhi. lia.
Qed.

(** ** ut_init *)


Lemma clamp_in_range n :
  MIN_TAB_SIZE <= n <= MAX_TAB_SIZE -> clamp n = n.
Proof.
  intros Hn. unfold clamp.
  destruct (Z.gtb_spec n MAX_TAB_SIZE), (Z.ltb_spec n MIN_TAB_SIZE);
    cbn; auto; lia.
Qed.


Lemma ut_init_unfold n chunk s :
  ut_init n chunk s
  = ((match threads_table s with
      | Some _ => release_memory ;; mret tt
      | None => mret tt
      end) ;; init_rest (clamp n) chunk) s.
Proof. reflexivity. Qed.

Lemma init_rest_ret n chunk s :
  init_rest n chunk s
  = match chunk with
    | Some g =>
        let p := Z.pos (heap_next s) in
        Ret 0 (set_threads_table (Some (p, g <$> seqZ 0 n))
                 (add_event (EvMalloc p)
                    (set_heap (p :: heap_live s) (Pos.succ (heap_next s))
                       (set_curr_thread 0
                          (set_next_position 0
                             (set_threads_table_size n s))))))
    | None =>
        Ret SYS_ERR
            (set_threads_table None
               (add_event (EvMalloc NULL)
                  (set_curr_thread 0
                     (set_next_position 0 (set_threads_table_size n s)))))
    end.
Proof. destruct chunk; reflexivity. Qed.

(** [ut_init] on a state without a table. *)
Lemma ut_init_first n chunk s :
  threads_table s = None ->
  ut_init n chunk s = init_rest (clamp n) chunk s.
Proof. intros Ht. rewrite ut_init_unfold, Ht. reflexivity. Qed.

Lemma init_cases n chunk s :
  on_ret (fun r s' =>
            next_position s' = 0 /\ curr_thread s' = 0
            /\ threads_table_size s' = clamp n
            /\ match chunk with
               | None => r = SYS_ERR /\ threads_table s' = None
               | Some g =>
                   r = 0
                   /\ exists p, threads_table s'
                                = Some (p, g <$> seqZ 0 (clamp n))
                                /\ is_live p s' = true
               end)
         (ut_init n chunk s).
Proof.
  rewrite ut_init_unfold.
  eapply on_ret_bind; [apply on_final_True|].
  intros _ s1 _. rewrite init_rest_ret. destruct chunk as [g|]; cbn.
  - repeat split. eexists. split; [reflexivity|].
    unfold is_live. cbn. rewrite Pos.eqb_refl. reflexivity.
  - auto.
Qed.

Lemma forallb_lookup {A} (f : A -> bool) (l : list A) :
  (forall i x, l !! i = Some x -> f x = true) -> forallb f l = true.
Proof.
  intros Hl. apply forallb_forall. intros x Hx.
  apply list_elem_of_In, list_elem_of_lookup in Hx. destruct Hx as [i Hi].
  eauto.
Qed.

(** [ut_init] at program start followed by one successful spawn per slot
    gives a fresh, fully spawned table. *)
Lemma boot_is_fresh s0 n g calls :
  threads_table s0 = None -> vtime s0 = 0 ->
  forallb (fun c => snd (fst c) && snd c) calls = true ->
  Z.of_nat (length calls) = clamp n -> 0 < clamp n <= INT_MAX ->
  exists s1 s2,
    ut_init n (Some g) s0 = Ret 0 s1
    /\ spawns calls s1 = Ret (seqZ 0 (clamp n)) s2
    /\ fresh_fullb s2 = true.
Proof.
  intros Ht0 Hv0 Hall Hlen Hsz.
  eexists. rewrite (ut_init_first n (Some g) s0 Ht0), init_rest_ret.
  cbv zeta. set (p := Z.pos (heap_next s0)). set (s1 := set_threads_table _ _).
  destruct (spawns_fill calls s1 p (g <$> seqZ 0 (clamp n)) Hall)
    as (s2 & slots2 & Er & Hi & Hv & Ht & Hl & Hlen2 & Hsl).
  { reflexivity. }
  { unfold is_live, s1. cbn. rewrite Pos.eqb_refl. reflexivity. }
  { rewrite length_fmap, length_seqZ. cbn. lia. }
  { cbn. lia. }
  { cbn. lia. }
  change (next_position s1) with 0 in Er, Hi, Hsl.
  change (threads_table_size s1) with (clamp n) in Hi.
  change (curr_thread s1) with 0 in Hi.
  rewrite Hlen in Er. rewrite Z.add_0_l, Hlen in Hi.
  exists s2. split; [reflexivity|]. split; [exact Er|].
  apply indices_eq' in Hi. destruct Hi as (Hsz2 & Hnp2 & Hc2).
  assert (Hlen3 : Z.of_nat (length slots2) = clamp n).
  { rewrite Hlen2, length_fmap, length_seqZ. lia. }
  unfold fresh_fullb, sched_okb, slots_of. rewrite Ht, Hl, Hsz2, Hnp2, Hc2, Hv.
  change (vtime s1) with (vtime s0). rewrite Hv0.
  rewrite !andb_true_iff.
  repeat split; try (apply Z.eqb_eq); try (apply Z.leb_le);
    try (apply Z.ltb_lt); try lia.
  apply forallb_lookup. intros i sl Hisl. apply Z.eqb_eq.
  destruct (Hsl i sl Hisl) as (_ & Hmid & _). apply Hmid.
  apply lookup_lt_Some in Hisl. lia.
Qed.

(** ** release_memory and SIGINT *)

Lemma existsb_filter_ne (x q : Z) (l : list Z) :
  x <> q ->
  existsb (Z.eqb x) (List.filter (fun y => negb (y =? q)) l)
  = existsb (Z.eqb x) l.
Proof.
  intros Hne. induction l as [|y l IH]; [reflexivity|]. cbn.
  destruct (Z.eqb_spec y q) as [->|Hy]; cbn.
  - rewrite IH. destruct (Z.eqb_spec x q); [contradiction|reflexivity].
  - rewrite IH. reflexivity.
Qed.

Lemma existsb_eqb_false (x : Z) (l : list Z) :
  existsb (Z.eqb x) l = false -> forall y, In y l -> x <> y.
Proof.
  induction l as [|z l IH]; cbn; [tauto|].
  rewrite orb_false_iff. intros [Hz Hl] y [->|Hy].
  - apply Z.eqb_neq. exact Hz.
  - auto.
Qed.

Lemma is_live_freed x q s : x <> q -> is_live x (freed q s) = is_live x s.
Proof. intros Hne. unfold is_live, freed. cbn. apply existsb_filter_ne, Hne. Qed.

Lemma free_ret q s :
  q <> NULL -> is_live q s = true -> free q s = Ret tt (freed q s).
Proof.
  intros Hq Hl. unfold free, log. rewrite bind_modify.
  destruct (Z.eqb_spec q NULL) as [|_]; [contradiction|].
  rewrite bind_get.
  replace (is_live q (add_event (EvFree q) s)) with true by (symmetry; exact Hl).
  reflexivity.
Qed.

Lemma released_snoc ps p s : released (ps ++ [p]) s = freed p (released ps s).
Proof. unfold released. rewrite foldl_app. reflexivity. Qed.

Lemma is_live_released x ps s :
  existsb (Z.eqb x) ps = false -> is_live x (released ps s) = is_live x s.
Proof.
  revert s. induction ps as [|q ps IH]; intros s Hx; [reflexivity|].
  cbn [existsb] in Hx. apply orb_false_iff in Hx. destruct Hx as [Hq Hx].
  change (released (q :: ps) s) with (released ps (freed q s)).
  rewrite IH by exact Hx. apply is_live_freed. apply Z.eqb_neq. exact Hq.
Qed.

Lemma threads_table_released ps s :
  threads_table (released ps s) = threads_table s
  /\ indices (released ps s) = indices s
  /\ vtime (released ps s) = vtime s
  /\ old_sigaction (released ps s) = old_sigaction s
  /\ heap_next (released ps s) = heap_next s.
Proof.
  revert s. induction ps as [|p ps IH]; intros s; [cbn; auto|].
  change (released (p :: ps) s) with (released ps (freed p s)).
  destruct (IH (freed p s)) as (-> & -> & -> & -> & ->).
  repeat split; reflexivity.
Qed.

Lemma trace_released ps s :
  trace (released ps s) = rev (EvFree <$> ps) ++ trace s.
Proof.
  revert s. induction ps as [|p ps IH]; intros s; [reflexivity|].
  change (released (p :: ps) s) with (released ps (freed p s)).
  rewrite IH. cbn. rewrite <- app_assoc. reflexivity.
Qed.

Lemma heap_live_released ps s :
  heap_live (released ps s)
  = List.filter (fun q => negb (existsb (Z.eqb q) ps)) (heap_live s).
Proof.
  revert s. induction ps as [|p ps IH]; intros s.
  - cbn [released foldl existsb negb].
    induction (heap_live s) as [|x l IHl]; [reflexivity|].
    cbn [List.filter]. rewrite <- IHl. reflexivity.
  - change (released (p :: ps) s) with (released ps (freed p s)).
    rewrite IH. cbn [freed heap_live set_heap].
    induction (heap_live s) as [|x l IHl]; [reflexivity|].
    cbn [List.filter existsb]. destruct (x =? p); cbn [negb orb].
    + exact IHl.
    + cbn [List.filter]. rewrite IHl. reflexivity.
Qed.

(** The loop of [release_memory] over the slots from index [k] on. *)
Lemma release_loop p slots (rest : list Slot.ut_slot_t) : forall (k : nat) s,
  threads_table s = Some (p, slots) -> is_live p s = true ->
  drop k slots = rest ->
  let stacks := (fun sl => ss_sp (uc_stack (Slot.uc sl))) <$> rest in
  distinctb (p :: stacks) = true ->
  forallb (fun q => negb (q =? NULL) && is_live q s) stacks = true ->
  for_each (seqZ (Z.of_nat k) (Z.of_nat (length rest)))
           (fun i => sl ← load_slot i; free (ss_sp (uc_stack (Slot.uc sl)))) s
  = Ret tt (released stacks s).
Proof.
  induction rest as [|sl rest IH]; intros k s Ht Hl Hd stacks Hdis Hall.
  - reflexivity.
  - assert (Hk : slots !! k = Some sl).
    { rewrite <- (Nat.add_0_r k), <- lookup_drop, Hd. reflexivity. }
    assert (Hd' : drop (S k) slots = rest).
    { rewrite (drop_S _ _ _ Hk) in Hd. congruence. }
    set (q := ss_sp (uc_stack (Slot.uc sl))).
    subst stacks. rewrite fmap_cons in Hdis, Hall |- *. fold q in Hdis, Hall |- *.
    set (stacks := (fun sl => ss_sp (uc_stack (Slot.uc sl))) <$> rest) in *.
    cbn [distinctb existsb forallb] in Hdis, Hall.
    apply andb_true_iff in Hdis. destruct Hdis as [Hp Hdr].
    apply negb_true_iff, orb_false_iff in Hp. destruct Hp as [Hpq Hp].
    apply andb_true_iff in Hdr. destruct Hdr as [Hq Hdr].
    apply negb_true_iff in Hq.
    apply andb_true_iff in Hall. destruct Hall as [Hq0 Hall].
    apply andb_true_iff in Hq0. destruct Hq0 as [Hq0 Hql].
    apply negb_true_iff in Hq0.
    apply Z.eqb_neq in Hpq, Hq0.
    rewrite seqZ_cons by (cbn [length]; lia). cbn [for_each].
    rewrite bind_assoc.
    rewrite (bind_ret _ _ _ _ _
               (load_slot_ret s p slots (Z.of_nat k) sl Ht Hl
                  (Nat2Z.is_nonneg k)
                  (eq_ind_r (fun n => slots !! n = Some sl) Hk (Nat2Z.id k)))).
    fold q. rewrite (bind_ret _ _ _ _ _ (free_ret q s Hq0 Hql)).
    replace (Z.succ (Z.of_nat k)) with (Z.of_nat (S k)) by lia.
    replace (Z.pred (Z.of_nat (length (sl :: rest))))
      with (Z.of_nat (length rest)) by (cbn [length]; lia).
    change (released (q :: stacks) s) with (released stacks (freed q s)).
    apply IH; auto.
    + rewrite is_live_freed by auto. exact Hl.
    + cbn [distinctb existsb]. rewrite Hp, Hdr. reflexivity.
    + fold stacks. clear IH. 
      assert (Hin := existsb_eqb_false q stacks Hq).
      clear Hdr Hp Hq. induction stacks as [|x xs IHx]; [reflexivity|].
      cbn [forallb] in Hall |- *. rewrite !andb_true_iff in Hall |- *.
      destruct Hall as [[Hx0 Hxl] Hxs].
      split; [split; [exact Hx0|]|].
      * rewrite is_live_freed; [exact Hxl|].
        intros ->. apply (Hin q); [left; reflexivity|reflexivity].
      * apply IHx; auto. intros y Hy. apply Hin. right. exact Hy.
Qed.

Lemma owned_okb_true s :
  owned_okb s = true ->
  exists p slots,
    threads_table s = Some (p, slots)
    /\ Z.of_nat (length slots) = threads_table_size s
    /\ p <> NULL /\ is_live p s = true
    /\ existsb (Z.eqb p) (stacks_of s) = false
    /\ distinctb (p :: stacks_of s) = true
    /\ forallb (fun q => negb (q =? NULL) && is_live q s) (stacks_of s) = true.
Proof.
  unfold owned_okb. destruct (threads_table s) as [[p slots]|] eqn:Ht;
    [|discriminate].
  intros Hok. apply andb_true_iff in Hok. destruct Hok as [Hok Hall].
  apply andb_true_iff in Hok. destruct Hok as [Hn Hd].
  apply Z.eqb_eq in Hn.
  cbn [forallb] in Hall. apply andb_true_iff in Hall.
  destruct Hall as [Hp Hall]. apply andb_true_iff in Hp.
  destruct Hp as [Hp0 Hpl]. apply negb_true_iff, Z.eqb_neq in Hp0.
  pose proof Hd as Hd'. cbn [distinctb] in Hd'.
  apply andb_true_iff in Hd'. destruct Hd' as [Hpn _].
  apply negb_true_iff in Hpn.
  exists p, slots. repeat split; auto.
Qed.

(** [release_memory] on a table whose every slot owns a stack: the stacks
    are freed in slot order, then the table. *)
Lemma release_memory_full s :
  owned_okb s = true ->
  exists p slots,
    threads_table s = Some (p, slots)
    /\ release_memory s = Ret 0 (released (stacks_of s ++ [p]) s).
Proof.
  intros Hok.
  destruct (owned_okb_true s Hok)
    as (p & slots & Ht & Hn & Hp0 & Hpl & Hpn & Hd & Hall).
  exists p, slots. split; [exact Ht|].
  unfold release_memory. rewrite bind_get, Ht.
  assert (Hst : stacks_of s
                = (fun sl => ss_sp (uc_stack (Slot.uc sl))) <$> slots).
  { unfold stacks_of, slots_of. rewrite Ht. reflexivity. }
  rewrite Hst in *. cbv iota beta.
  rewrite <- Hn.
  pose proof (release_loop p slots slots 0 s Ht Hpl eq_refl Hd Hall) as El.
  change (Z.of_nat 0) with 0 in El. cbv zeta in El.
  rewrite (bind_ret _ _ _ _ _ El).
  assert (Hpl' : is_live p (released
                    ((fun sl => ss_sp (uc_stack (Slot.uc sl))) <$> slots) s)
                 = true).
  { rewrite is_live_released by exact Hpn. exact Hpl. }
  rewrite (bind_ret _ _ _ _ _ (free_ret p _ Hp0 Hpl')).
  rewrite released_snoc. reflexivity.
Qed.

(** The handler stored before, when it is there and comes back. *)
Lemma call_handler_ret h s :
  h <> 0 -> comes_back h = true ->
  call_handler h SIGINT s = Ret tt (add_event (EvCall h SIGINT) s).
Proof.
  intros Hh. unfold comes_back, call_handler, log. rewrite bind_modify.
  destruct (Z.eqb_spec h 0) as [|_]; [contradiction|].
  destruct (h =? SIG_IGN); [discriminate|].
  destruct (call_through h SIGINT); [reflexivity|discriminate|discriminate].
Qed.


(** [ut_init] over a table whose every slot owns a stack returns as well. *)
Lemma ut_init_again n chunk s :
  owned_okb s = true ->
  exists s',
    ut_init n chunk s
    = Ret (match chunk with Some _ => 0 | None => SYS_ERR end) s'.
Proof.
  intros Hok. destruct (release_memory_full s Hok) as (p & slots & Ht & Er).
  rewrite ut_init_unfold, Ht. rewrite bind_assoc.
  rewrite (bind_ret _ _ _ _ _ Er). rewrite bind_mret, init_rest_ret.
  destruct chunk; eexists; reflexivity.
Qed.

(** ** ut_get_vtime *)

Lemma ut_get_vtime_in_range tid s p slots sl :
  threads_table s = Some (p, slots) -> is_live p s = true ->
  0 <= tid < threads_table_size s ->
  slots !! Z.to_nat tid = Some sl ->
  ut_get_vtime tid s = Ret (Slot.vtime sl) s.
Proof.
  intros Ht Hl Htid Hsl. unfold ut_get_vtime. rewrite bind_get.
  replace ((0 <=? tid) && (tid <? threads_table_size s)) with true.
  - rewrite (bind_ret _ _ _ _ _
               (load_slot_ret s p slots tid sl Ht Hl (proj1 Htid) Hsl)).
    reflexivity.
  - symmetry. apply andb_true_iff.
    split; [apply Z.leb_le|apply Z.ltb_lt]; lia.
Qed.

(** ** The claims *)

(** C1 (as amended).  On SIGALRM, on a live table with the running index in
    range, the handler calls [alarm(QUANTUM)], takes
    [next = (curr_thread + 1) mod threads_table_size] (the size of the whole
    table, whatever [next_position] is), stores it in [curr_thread] and
    calls [swapcontext] from the slot at the old index to the slot at
    [next].  When [swapcontext] answers 0 the handler returns, when it fails
    the handler exits, and [curr_thread = next] either way.  [next] lies in
    [0, threads_table_size), and over any run of signals [curr_thread] stays
    in that range.  Besides this switch only [ut_init] writes
    [curr_thread], and it stores 0: no other signal changes it, nor do
    [ut_spawn_thread], [ut_start] and [ut_get_vtime]. *)
Theorem preemption_tick_round_robin (s : state) :
  sched_okb s = true ->
  let next := (curr_thread s + 1) mod threads_table_size s in
  0 <= next < threads_table_size s
  /\ (exists s',
        thread_signals_handler SIGALRM true s = Ret tt s'
        /\ curr_thread s' = next
        /\ trace s'
           = EvSwapcontext (Some (curr_thread s)) (Some next) true
               :: EvAlarm QUANTUM :: trace s
        /\ threads_table_size s' = threads_table_size s
        /\ next_position s' = next_position s
        /\ sched_okb s' = true)
  /\ (exists s',
        thread_signals_handler SIGALRM false s = Exit EXIT_FAILURE s'
        /\ curr_thread s' = next
        /\ trace s'
           = EvPerror
               :: EvSwapcontext (Some (curr_thread s)) (Some next) false
               :: EvAlarm QUANTUM :: trace s)
  /\ (forall signal ok,
        signal <> SIGALRM ->
        on_final (fun s' => curr_thread s' = curr_thread s)
                 (thread_signals_handler signal ok s))
  /\ (forall f a stack_ok getcontext_ok,
        on_ret (fun _ s' => curr_thread s' = curr_thread s)
               (ut_spawn_thread f a stack_ok getcontext_ok s))
  /\ (forall a,
        on_ret (fun _ s' => curr_thread s' = curr_thread s) (ut_start a s))
  /\ (forall tid,
        on_ret (fun _ s' => curr_thread s' = curr_thread s)
               (ut_get_vtime tid s))
  /\ (forall n chunk,
        on_ret (fun _ s' => curr_thread s' = 0) (ut_init n chunk s))
  /\ (forall sigs,
        on_final (fun s' => 0 <= curr_thread s' < threads_table_size s'
                            /\ threads_table_size s' = threads_table_size s)
                 (deliver sigs s)).
Proof.
  intros Hok next.
  destruct (sched_okb_true s Hok) as (p & slots & Ht & Hl & Hn & Hc & Hm).
  destruct (next_in_range _ _ Hc) as [_ Hnext]. fold next in Hnext.
  destruct (lookup_in_table slots (curr_thread s) _ Hn Hc) as [sl Hsl].
  split; [exact Hnext|].
  split; [|split; [|split; [|split; [|split; [|split; [|split]]]]]].
  - eexists. split.
    + exact (handler_sigalrm_ret s p slots sl true Ht Hl Hn Hc Hm Hsl).
    + repeat (split; [reflexivity|]).
      eapply sched_okb_intro; cbn; eauto.
      rewrite length_insert. exact Hn.
  - eexists. split.
    + exact (handler_sigalrm_ret s p slots sl false Ht Hl Hn Hc Hm Hsl).
    + split; reflexivity.
  - intros signal ok Hne.
    eapply on_final_impl; [|apply (handler_keeps_indices signal ok Hne s)].
    intros s' E. unfold indices in E. congruence.
  - intros f a stack_ok getcontext_ok.
    eapply on_ret_impl; [|apply spawn_cases].
    intros r s' (_ & E & _). exact E.
  - intros a.
    assert (K : keeps curr_thread (ut_start a)).
    { unfold ut_start, alarm, load_slot, table, log.
      repeat first
        [ keeps_step
        | match goal with
          | |- keeps _ (if ?b then _ else _) => destruct b
          | |- keeps _ (match ?x with _ => _ end) => destruct x
          end ]. }
    specialize (K s). destruct (ut_start a s); try exact I. exact K.
  - intros tid.
    assert (K : keeps curr_thread (ut_get_vtime tid)).
    { unfold ut_get_vtime, load_slot, table.
      repeat first
        [ keeps_step
        | match goal with
          | |- keeps _ (if ?b then _ else _) => destruct b
          | |- keeps _ (match ?x with _ => _ end) => destruct x
          end ]. }
    specialize (K s). destruct (ut_get_vtime tid s); try exact I. exact K.
  - intros n chunk.
    eapply on_ret_impl; [|apply init_cases].
    intros r s' (_ & E & _). exact E.
  - intros sigs. apply deliver_keeps_range. exact Hc.
Qed.

(** C2, as amended.  A virtual-clock tick adds [INTERVAL_MICRO], in
    [unsigned long], to the accumulator and to the [vtime] of the slot at
    [curr_thread], touches no other counter, and makes no library call (so no
    [swapcontext]).  From a fresh table with every slot spawned and the
    accumulator at 0 (what [ut_init] and one successful spawn per slot
    produce at program start, see [boot_is_fresh]), after any number of ticks
    the counters sum up to the accumulator; from [n] ticks to [n + 1] no
    counter decreases as long as [100 * (n + 1)] is below [2 ^ 64]. *)
Theorem virtual_clock_ticks (s : state) :
  fresh_fullb s = true ->
  (forall s0 ok,
     sched_okb s0 = true ->
     exists s',
       thread_signals_handler SIGVTALRM ok s0 = Ret tt s'
       /\ vtime s' = ulong_add (vtime s0) INTERVAL_MICRO
       /\ slot_vtime (Z.to_nat (curr_thread s0)) s'
          = ulong_add (slot_vtime (Z.to_nat (curr_thread s0)) s0)
                      INTERVAL_MICRO
       /\ (forall j, j <> Z.to_nat (curr_thread s0) ->
                     slot_vtime j s' = slot_vtime j s0)
       /\ trace s' = trace s0
       /\ curr_thread s' = curr_thread s0)
  /\ (forall n,
        exists s1 s2,
          ticks n s = Ret tt s1
          /\ ticks (N.succ n) s = Ret tt s2
          /\ trace s1 = trace s
          /\ sum_vtime (slots_of s1) = vtime s1
          /\ (INTERVAL_MICRO * Z.of_N (N.succ n) < ULONG_MODULUS ->
              vtime s1 <= vtime s2
              /\ forall j, slot_vtime j s1 <= slot_vtime j s2)).
Proof.
  intros Hf. split.
  - intros s0 ok Hok.
    destruct (tick_observed s0 ok Hok)
      as (s' & E & Hv & Hc & Hj & _ & Ht & Hi & _).
    exists s'. repeat split; auto. unfold indices in Hi. congruence.
  - intros n.
    destruct (ticks_fresh s n Hf)
      as (s1 & E1 & _ & _ & Ht1 & Hv1 & Hc1 & Hs1 & Hj1).
    destruct (ticks_fresh s (N.succ n) Hf)
      as (s2 & E2 & _ & _ & _ & Hv2 & Hc2 & _ & Hj2).
    exists s1, s2. repeat split; auto; try congruence.
    + rewrite Hv1, Hv2.
      rewrite !small_mod by (unfold INTERVAL_MICRO in *; lia).
      unfold INTERVAL_MICRO. lia.
    + intros j. destruct (decide (j = Z.to_nat (curr_thread s))) as [->|Hne].
      * rewrite Hc1, Hc2.
        rewrite !small_mod by (unfold INTERVAL_MICRO in *; lia).
        unfold INTERVAL_MICRO. lia.
      * rewrite Hj1, Hj2 by exact Hne. lia.
Qed.

(** C3, as amended.  [ut_get_vtime] returns 0 for [tid < 0] and for
    [tid >= threads_table_size].  For a [tid] in range it returns the [vtime]
    field stored in that slot: 0 right after the slot was spawned, and for a
    slot never spawned whatever the table's storage held when [ut_init]
    obtained it. *)
Theorem ut_get_vtime_values (tid : Z) (s : state) :
  (tid < 0 \/ threads_table_size s <= tid -> ut_get_vtime tid s = Ret 0 s)
  /\ (forall p slots sl,
        threads_table s = Some (p, slots) -> is_live p s = true ->
        0 <= tid < threads_table_size s ->
        slots !! Z.to_nat tid = Some sl ->
        ut_get_vtime tid s = Ret (Slot.vtime sl) s)
  /\ (forall p slots f a,
        threads_table s = Some (p, slots) -> is_live p s = true ->
        Z.of_nat (length slots) = threads_table_size s ->
        tid = next_position s -> 0 <= tid < threads_table_size s ->
        exists s',
          ut_spawn_thread f a true true s = Ret tid s'
          /\ ut_get_vtime tid s' = Ret 0 s')
  /\ (forall n g s0 r,
        ut_init n (Some g) s0 = Ret r s ->
        0 <= tid < threads_table_size s ->
        ut_get_vtime tid s = Ret (Slot.vtime (g tid)) s).
Proof.
  split; [|split; [|split]].
  - intros Hout. unfold ut_get_vtime. rewrite bind_get.
    replace ((0 <=? tid) && (tid <? threads_table_size s)) with false;
      [reflexivity|].
    symmetry. apply andb_false_iff.
    destruct Hout; [left; apply Z.leb_gt|right; apply Z.ltb_ge]; lia.
  - intros p slots sl. apply ut_get_vtime_in_range.
  - intros p slots f a Ht Hl Hn -> Hr.
    eexists. split.
    + apply (spawn_ret s p slots f a Ht Hl); lia.
    + change 0 with (Slot.vtime (spawned (Z.pos (heap_next s)) f a)) at 1.
      eapply (ut_get_vtime_in_range _ _ p); cbn; try reflexivity.
      * rewrite orb_true_iff. right. exact Hl.
      * lia.
      * apply list_lookup_insert_eq. lia.
  - intros n g s0 r Ei Hr.
    pose proof (init_cases n (Some g) s0) as Hi. rewrite Ei in Hi.
    destruct Hi as (_ & _ & Hsz & _ & p & Ht & Hl).
    apply (ut_get_vtime_in_range tid s p _ (g tid) Ht Hl Hr).
    rewrite list_lookup_fmap, lookup_seqZ_lt by lia.
    cbn. f_equal. f_equal. lia.
Qed.

(** C6.  With [next_position == threads_table_size], [ut_spawn_thread]
    returns [TAB_FULL] and leaves the whole state as it was, whatever the
    library calls would answer.  That is the case after [ut_init] and as many
    successful calls of [ut_spawn_thread] as the table has slots:
    [next_position] then equals [threads_table_size] and the next call fails
    this way. *)
Theorem spawn_on_full_table :
  SYS_ERR < 0 -> TAB_FULL < 0 ->
  (forall s f a stack_ok getcontext_ok,
     next_position s = threads_table_size s ->
     ut_spawn_thread f a stack_ok getcontext_ok s = Ret TAB_FULL s)
  /\ (forall s0 n chunk r s1 calls ids s2,
        ut_init n chunk s0 = Ret r s1 ->
        spawns calls s1 = Ret ids s2 ->
        Forall (fun id => 0 <= id) ids ->
        Z.of_nat (length calls) = threads_table_size s1 ->
        next_position s2 = threads_table_size s2
        /\ threads_table_size s2 = clamp n
        /\ forall f a stack_ok getcontext_ok,
             ut_spawn_thread f a stack_ok getcontext_ok s2 = Ret TAB_FULL s2).
Proof.
  intros Hsys Hfull. split.
  - intros. apply spawn_full. assumption.
  - intros s0 n chunk r s1 calls ids s2 Ei Es Hids Hlen.
    pose proof (init_cases n chunk s0) as Hi. rewrite Ei in Hi.
    destruct Hi as (Hnp & _ & Hsz & _).
    assert (H0 : 0 <= next_position s1) by lia.
    pose proof (spawns_count calls s1 Hsys Hfull H0) as Hc. rewrite Es in Hc.
    destruct Hc as [Hsz2 Hc]. specialize (Hc Hids).
    assert (E : next_position s2 = threads_table_size s2) by lia.
    split; [exact E|]. split; [congruence|].
    intros. apply spawn_full. exact E.
Qed.


(** C9.  When the table's [malloc] answers NULL, [ut_init] (called without
    a table, or over a table whose every slot owns a stack) returns [SYS_ERR]
    with [threads_table] NULL, yet [threads_table_size] already holds the
    size brought into range and [next_position] and [curr_thread] are 0.
    [ut_get_vtime] then takes every [tid] in [0, threads_table_size) for
    valid and reads [threads_table\[tid\]] through the NULL pointer. *)
Theorem failed_init_leaves_size (n : Z) (s : state) :
  threads_table s = None \/ owned_okb s = true ->
  exists s',
    ut_init n None s = Ret SYS_ERR s'
    /\ threads_table s' = None
    /\ threads_table_size s' = clamp n
    /\ next_position s' = 0
    /\ curr_thread s' = 0
    /\ forall tid,
         0 <= tid < clamp n ->
         (0 <=? tid) && (tid <? threads_table_size s') = true
         /\ ut_get_vtime tid s' = Undefined NullDeref.
Proof.
  intros Hs.
  assert (Er : exists s', ut_init n None s = Ret SYS_ERR s').
  { destruct Hs as [Ht|Hok].
    - rewrite (ut_init_first n None s Ht), init_rest_ret. eexists. reflexivity.
    - apply (ut_init_again n None s Hok). }
  destruct Er as [s' Er]. exists s'. split; [exact Er|].
  pose proof (init_cases n None s) as Hi. rewrite Er in Hi.
  destruct Hi as (Hnp & Hc & Hsz & _ & Ht').
  repeat (split; [assumption|]).
  intros tid Htid.
  assert (G : (0 <=? tid) && (tid <? threads_table_size s') = true).
  { rewrite andb_true_iff. split; [apply Z.leb_le|apply Z.ltb_lt]; lia. }
  split; [exact G|].
  unfold ut_get_vtime. rewrite bind_get, G.
  unfold load_slot, table. repeat mstep. rewrite Ht'. reflexivity.
Qed.

(** C10.  [ut_get_vtime] changes nothing: whenever it returns, the state is
    the one it was called in, and it never exits.  It returns for every
    [tid] outside [0, threads_table_size), and for every [tid] when the
    table is allocated and of that size. *)
Theorem ut_get_vtime_pure (tid : Z) (s : state) :
  match ut_get_vtime tid s with
  | Ret _ s' => s' = s
  | Exit _ _ => False
  | Undefined _ => (0 <=? tid) && (tid <? threads_table_size s) = true
  end
  /\ (forall p slots,
        threads_table s = Some (p, slots) -> is_live p s = true ->
        Z.of_nat (length slots) = threads_table_size s ->
        exists v, ut_get_vtime tid s = Ret v s).
Proof.
  split.
  - unfold ut_get_vtime. rewrite bind_get.
    destruct ((0 <=? tid) && (tid <? threads_table_size s)) eqn:G;
      [|reflexivity].
    unfold load_slot, table. repeat mstep.
    destruct (threads_table s) as [[p slots]|]; [|reflexivity].
    destruct (is_live p s); [|reflexivity].
    repeat mstep. cbn [snd].
    destruct (tid <? 0); [reflexivity|].
    destruct (slots !! Z.to_nat tid); reflexivity.
  - intros p slots Ht Hl Hn. unfold ut_get_vtime. rewrite bind_get.
    destruct ((0 <=? tid) && (tid <? threads_table_size s)) eqn:G.
    + apply andb_true_iff in G. destruct G as [G0 G1].
      apply Z.leb_le in G0. apply Z.ltb_lt in G1.
      destruct (lookup_in_table slots tid _ Hn (conj G0 G1)) as [sl Hsl].
      rewrite (bind_ret _ _ _ _ _ (load_slot_ret s p slots tid sl Ht Hl G0 Hsl)).
      eexists. reflexivity.
    + eexists. reflexivity.
Qed.

End Facts.

(** ** The concrete runs *)

(** C1 at [partial3]: the tick switches from slot 0 to slot 1, a slot that
    was never spawned. *)
Lemma preemption_tick_witness :
  exists s',
    thread_signals_handler SIGALRM true partial3 = Ret tt s'
    /\ curr_thread s' = 1
    /\ trace s'
       = EvSwapcontext (Some 0) (Some 1) true
           :: EvAlarm QUANTUM :: trace partial3.
Proof.
  destruct (preemption_tick_round_robin (H:=sample_header) partial3 eq_refl)
    as (_ & (s' & E & Hc & Ht & _) & _).
  exists s'. split; [exact E|]. split; [exact Hc|exact Ht].
Defined.

(** C1 as stated does not hold: [curr_thread] also changes outside the
    switch.  After one preemption tick on [full2] the running index is 1,
    and [ut_init(2)] then returns with the running index 0. *)
Lemma ut_init_resets_running_index :
  exists s1 s2,
    thread_signals_handler SIGALRM true full2 = Ret tt s1
    /\ curr_thread s1 = 1
    /\ ut_init (H:=sample_header) 2 (Some stale) s1 = Ret 0 s2
    /\ curr_thread s2 = 0
    /\ curr_thread s2 <> curr_thread s1.
Proof.
  exists (final (thread_signals_handler SIGALRM true full2)).
  exists (final (ut_init (H:=sample_header) 2 (Some stale)
                   (final (thread_signals_handler SIGALRM true full2)))).
  split; [vm_compute; reflexivity|]. split; [vm_compute; reflexivity|].
  split; [vm_compute; reflexivity|]. split; [vm_compute; reflexivity|].
  vm_compute. discriminate.
Qed.

(** C2 as stated does not hold: after [last_tick + 1] ticks on a fresh table
    of two spawned slots the counter of slot 0 has dropped from
    18446744073709551600 to 84. *)
Lemma vtime_counter_wraps :
  full2 = booted 2 stale 2
  /\ fresh_fullb full2 = true
  /\ exists s1 s2,
       ticks last_tick full2 = Ret tt s1
       /\ ticks (N.succ last_tick) full2 = Ret tt s2
       /\ slot_vtime 0 s1 = 18446744073709551600
       /\ slot_vtime 0 s2 = 84
       /\ slot_vtime 0 s2 < slot_vtime 0 s1
       /\ vtime s2 < vtime s1.
Proof.
  split; [vm_compute; reflexivity|]. split; [reflexivity|].
  destruct (ticks_fresh full2 last_tick eq_refl)
    as (s1 & E1 & _ & _ & _ & Hv1 & Hc1 & _).
  destruct (ticks_fresh full2 (N.succ last_tick) eq_refl)
    as (s2 & E2 & _ & _ & _ & Hv2 & Hc2 & _).
  exists s1, s2.
  change (Z.to_nat (curr_thread full2)) with 0%nat in Hc1, Hc2.
  assert (V1 : slot_vtime 0 s1 = 18446744073709551600)
    by (rewrite Hc1; reflexivity).
  assert (V2 : slot_vtime 0 s2 = 84) by (rewrite Hc2; reflexivity).
  split; [exact E1|]. split; [exact E2|].
  split; [exact V1|]. split; [exact V2|].
  split; [rewrite V1, V2; reflexivity|].
  rewrite Hv1, Hv2. reflexivity.
Qed.

(** C2 (as amended) at [full2]: three ticks, then a fourth. *)
Lemma virtual_clock_ticks_witness :
  exists s1 s2,
    ticks 3 full2 = Ret tt s1
    /\ ticks 4 full2 = Ret tt s2
    /\ trace s1 = trace full2
    /\ sum_vtime (slots_of s1) = vtime s1
    /\ vtime s1 <= vtime s2.
Proof.
  destruct (virtual_clock_ticks full2 eq_refl) as [_ Hn].
  destruct (Hn 3%N) as (s1 & s2 & E1 & E2 & Ht & Hs & Hm).
  exists s1, s2. repeat split; auto.
  apply Hm. reflexivity.
Defined.

(** C3 as stated does not hold: slot 2 of [partial3] was never spawned
    ([next_position] is 1) and [ut_get_vtime(2)] returns the 7 that the
    table's storage held. *)
Lemma ut_get_vtime_unspawned_slot :
  next_position partial3 = 1
  /\ threads_table_size partial3 = 3
  /\ ut_get_vtime 2 partial3 = Ret 7 partial3.
Proof. repeat split; reflexivity. Qed.

(** C3 (as amended) at [partial3]: two identifiers out of range and the one
    spawned slot. *)
Lemma ut_get_vtime_values_witness :
  ut_get_vtime (-1) partial3 = Ret 0 partial3
  /\ ut_get_vtime 3 partial3 = Ret 0 partial3
  /\ ut_get_vtime 0 partial3 = Ret 0 partial3.
Proof.
  split; [|split].
  - apply (proj1 (ut_get_vtime_values (H:=sample_header) (-1) partial3)).
    left. reflexivity.
  - apply (proj1 (ut_get_vtime_values (H:=sample_header) 3 partial3)).
    right. vm_compute. discriminate.
  - apply (proj1 (proj2 (ut_get_vtime_values (H:=sample_header) 0 partial3))
             1 (slots_of partial3) (spawned (H:=sample_header) 2 worker 5));
      [reflexivity | reflexivity | | reflexivity].
    split; [vm_compute; discriminate|reflexivity].
Defined.

(** C6 at [spawned2]: [ut_init(2)], two successful spawns, and a third call
    that returns [TAB_FULL]. *)
Lemma spawn_on_full_table_witness :
  next_position spawned2 = threads_table_size spawned2
  /\ ut_spawn_thread (H:=sample_header) worker 7 true true spawned2
     = Ret (-2) spawned2.
Proof.
  destruct (spawn_on_full_table (H:=sample_header) eq_refl eq_refl)
    as [_ Hrun].
  assert (Hids : Forall (fun id => 0 <= id) [0; 1])
    by (repeat constructor; discriminate).
  destruct (Hrun initial 2 (Some stale) 0 table2 two_calls [0; 1] spawned2
              eq_refl eq_refl Hids eq_refl) as (E & _ & Hf).
  split; [exact E|]. apply Hf.
Defined.


(** C8 on a table with slots never spawned.  [partial3] has three slots and
    one spawned thread; on SIGINT the handler frees the stack of slot 0 and
    then passes the pointer found in slot 1, which [malloc] never returned,
    to [free]. *)
Theorem sigint_frees_unallocated_pointer :
  partial3 = booted 3 stale 1
  /\ next_position partial3 = 1
  /\ threads_table_size partial3 = 3
  /\ stacks_of partial3 = [2; 4097; 4098]
  /\ heap_live partial3 = [2; 1]
  /\ thread_signals_handler SIGINT true partial3
     = Undefined (InvalidFree 4097).
Proof. repeat split; vm_compute; reflexivity. Qed.

(** C9 at program start: [ut_init(5)] fails and [ut_get_vtime(4)] reads
    through the NULL table. *)
Lemma failed_init_leaves_size_witness :
  exists s',
    ut_init (H:=sample_header) 5 None initial = Ret (-1) s'
    /\ threads_table s' = None
    /\ threads_table_size s' = 5
    /\ ut_get_vtime 4 s' = Undefined NullDeref.
Proof.
  destruct (failed_init_leaves_size (H:=sample_header) 5 initial
              (or_introl eq_refl))
    as (s' & E & Ht & Hs & _ & _ & Hv).
  exists s'. split; [exact E|]. split; [exact Ht|]. split; [exact Hs|].
  apply Hv. split; [vm_compute; discriminate|reflexivity].
Defined.

(** C10 at [full2]. *)
Lemma ut_get_vtime_pure_witness :
  exists v, ut_get_vtime 1 full2 = Ret v full2.
Proof.
  destruct (ut_get_vtime_pure 1 full2) as [_ Hr].
  eapply Hr; reflexivity.
Defined.

End UtFacts.

(** * Sequences of semaphore calls *)

Module BinsemSequences.
Import Binsem BinsemRuns UtFacts.

Lemma down_on_zero answer t :
  binsem_down answer (World 0 t)
  = Ret answer (World 0 (EvRaise SIGALRM :: EvAlarm 0 :: t)).
Proof. reflexivity. Qed.

Lemma down_on_nonzero answer v t :
  v <> 0 -> binsem_down answer (World v t) = Ret 0 (World 0 t).
Proof.
  intros Hv. unfold binsem_down, xchg, mbind, M_bind. cbn.
  destruct (Z.eqb_spec v 0); [contradiction|reflexivity].
Qed.

Lemma downs_on_zero answers : forall t,
  downs answers (World 0 t)
  = Ret answers (World 0 (yields (length answers) t)).
Proof.
  induction answers as [|a rest IH]; intros t; [reflexivity|].
  cbn [downs length yields].
  rewrite (bind_ret _ _ _ _ _ (down_on_zero a t)).
  rewrite (bind_ret _ _ _ _ _ (IH _)). reflexivity.
Qed.

(** X1.  Once [binsem_down] has run, on whatever word and with whatever
    answer of [raise], the word is 0, and every further [binsem_down] is
    contended until someone stores a 1: each call makes [alarm(0)] and
    [raise(SIGALRM)], returns what [raise] answered and leaves the word
    at 0. *)
Theorem held_until_released (v a : Z) (answers : list Z) (t : list event) :
  exists r t',
    binsem_down a (World v t) = Ret r (World 0 t')
    /\ (binsem_down a ;; downs answers) (World v t)
       = Ret answers (World 0 (yields (length answers) t')).
Proof.
  destruct (Z.eq_dec v 0) as [->|Hv].
  - eexists _, _. split; [apply down_on_zero|].
    rewrite (bind_ret _ _ _ _ _ (down_on_zero a t)). apply downs_on_zero.
  - eexists _, _. split; [apply down_on_nonzero; exact Hv|].
    rewrite (bind_ret _ _ _ _ _ (down_on_nonzero a v t Hv)).
    apply downs_on_zero.
Qed.

(** X2.  [binsem_init] stores 1 for a positive [init_val] and 0 otherwise,
    whatever the word held.  After [binsem_init] with a positive value the
    first [binsem_down] returns 0 without a call and the second one is
    contended; after [binsem_init] with any other value already the first
    one is contended. *)
Theorem init_then_down (init_val v a1 a2 : Z) (t : list event) :
  (0 < init_val ->
   binsem_init init_val (World v t) = Ret tt (World 1 t)
   /\ (binsem_init init_val ;; downs [a1; a2]) (World v t)
      = Ret [0; a2] (World 0 (EvRaise SIGALRM :: EvAlarm 0 :: t)))
  /\ (init_val <= 0 ->
      binsem_init init_val (World v t) = Ret tt (World 0 t)
      /\ (binsem_init init_val ;; downs [a1; a2]) (World v t)
         = Ret [a1; a2] (World 0 (yields 2 t))).
Proof.
  split; intros Hv; unfold binsem_init.
  - destruct (Z.gtb_spec init_val 0); [|lia]. split; reflexivity.
  - destruct (Z.gtb_spec init_val 0); [lia|]. split; reflexivity.
Qed.

Lemma init_then_down_witness :
  (binsem_init 3 ;; downs [7; 9]) (World 5 [])
  = Ret [0; 9] (World 0 [EvRaise SIGALRM; EvAlarm 0])
  /\ (binsem_init (-3) ;; downs [7; 9]) (World 5 [])
     = Ret [7; 9] (World 0 (yields 2 [])).
Proof.
  split.
  - apply (proj1 (init_then_down 3 5 7 9 [])). reflexivity.
  - apply (proj2 (init_then_down (-3) 5 7 9 [])). discriminate.
Defined.

Lemma call_binary o w :
  exists w', call o w = Ret tt w' /\ (sem w' = 0 \/ sem w' = 1).
Proof.
  destruct o as [v| |a]; cbn [call].
  - unfold binsem_init. destruct (v >? 0); eexists; split;
      try reflexivity; cbn; auto.
  - eexists. split; [reflexivity|]. cbn. auto.
  - destruct w as [v t]. destruct (Z.eq_dec v 0) as [->|Hv].
    + eexists. split; [reflexivity|]. cbn. auto.
    + eexists. rewrite (bind_ret _ _ _ _ _ (down_on_nonzero a v t Hv)).
      split; [reflexivity|]. cbn. auto.
Qed.

(** X3.  The word is binary after the first call: whatever it held before
    and whichever of [binsem_init], [binsem_up] and [binsem_down] are called
    in whichever order, every run of at least one call returns and leaves the
    word at 0 or 1. *)
Theorem word_stays_binary (o : op) (ops : list op) (w : world) :
  exists w', calls (o :: ops) w = Ret tt w' /\ (sem w' = 0 \/ sem w' = 1).
Proof.
  revert o w. induction ops as [|o' rest IH]; intros o w.
  - destruct (call_binary o w) as (w' & E & Hb). exists w'.
    cbn [calls]. rewrite (bind_ret _ _ _ _ _ E). auto.
  - destruct (call_binary o w) as (w1 & E & _).
    destruct (IH o' w1) as (w' & E' & Hb). exists w'.
    change (calls (o :: o' :: rest)) with (call o ;; calls (o' :: rest)).
    rewrite (bind_ret _ _ _ _ _ E). auto.
Qed.

End BinsemSequences.

(** * Preemption *)

Module UtPreemption.
Import Ut UtRuns UtFacts.

Ltac mstep :=
  first [ rewrite bind_assoc | rewrite bind_get | rewrite bind_modify
        | rewrite bind_mret ].

Section Facts.
Context `{ut_header} {prog : host}.

(** ** Round robin *)

(** One preemption tick, seen through the observations. *)
Lemma preempt_observed s :
  sched_okb s = true ->
  exists s',
    thread_signals_handler SIGALRM true s = Ret tt s'
    /\ curr_thread s' = (curr_thread s + 1) mod threads_table_size s
    /\ threads_table_size s' = threads_table_size s
    /\ next_position s' = next_position s
    /\ vtime s' = vtime s
    /\ heap_live s' = heap_live s
    /\ (forall j, slot_vtime j s' = slot_vtime j s)
    /\ sum_vtime (slots_of s') = sum_vtime (slots_of s)
    /\ length (slots_of s') = length (slots_of s)
    /\ sched_okb s' = true.
Proof.
  intros Hok.
  destruct (sched_okb_true s Hok) as (p & slots & Ht & Hl & Hn & Hc & Hm).
  destruct (next_in_range _ _ Hc) as [_ Hnext].
  destruct (lookup_in_table slots (curr_thread s) _ Hn Hc) as [sl Hsl].
  eexists. split.
  { exact (handler_sigalrm_ret s p slots sl true Ht Hl Hn Hc Hm Hsl). }
  do 5 (split; [reflexivity|]).
  unfold slot_vtime, slots_of.
  cbn [threads_table set_threads_table add_event set_curr_thread].
  rewrite Ht. split; [|split; [|split]].
  - intros j. destruct (decide (j = Z.to_nat (curr_thread s))) as [->|Hne].
    + rewrite list_lookup_insert_eq by lia. rewrite Hsl. reflexivity.
    + rewrite list_lookup_insert_ne by auto. reflexivity.
  - rewrite (sum_vtime_insert slots _ sl _ Hsl). cbn. lia.
  - apply length_insert.
  - eapply sched_okb_intro; cbn; eauto. rewrite length_insert. exact Hn.
Qed.

(** X4.  Preemption is a round robin over the whole table: after [k] ticks
    whose [swapcontext] succeeds the running index is
    [(curr_thread + k) mod threads_table_size], so after
    [threads_table_size] ticks it is back where it was.  The ticks change
    neither [next_position], nor the accumulator, nor any counter. *)
Theorem round_robin (k : nat) : forall s,
  sched_okb s = true ->
  exists s',
    deliver (repeat (SIGALRM, true) k) s = Ret tt s'
    /\ curr_thread s'
       = (curr_thread s + Z.of_nat k) mod threads_table_size s
    /\ (Z.of_nat k = threads_table_size s -> curr_thread s' = curr_thread s)
    /\ threads_table_size s' = threads_table_size s
    /\ next_position s' = next_position s
    /\ vtime s' = vtime s
    /\ (forall j, slot_vtime j s' = slot_vtime j s)
    /\ sched_okb s' = true.
Proof.
  assert (Hgen : forall s, sched_okb s = true ->
            exists s',
              deliver (repeat (SIGALRM, true) k) s = Ret tt s'
              /\ curr_thread s'
                 = (curr_thread s + Z.of_nat k) mod threads_table_size s
              /\ threads_table_size s' = threads_table_size s
              /\ next_position s' = next_position s
              /\ vtime s' = vtime s
              /\ (forall j, slot_vtime j s' = slot_vtime j s)
              /\ sched_okb s' = true).
  { induction k as [|k IH]; intros s Hok.
    - exists s. split; [reflexivity|].
      destruct (sched_okb_true s Hok) as (_ & _ & _ & _ & _ & Hc & _).
      rewrite Z.add_0_r, Z.mod_small by lia. repeat split; auto.
    - destruct (preempt_observed s Hok)
        as (s1 & E1 & Hc1 & Hs1 & Hn1 & Hv1 & _ & Hj1 & _ & _ & Hok1).
      destruct (IH s1 Hok1) as (s' & E' & Hc' & Hs' & Hn' & Hv' & Hj' & Hok').
      exists s'. cbn [repeat deliver]. rewrite (bind_ret _ _ _ _ _ E1).
      split; [exact E'|]. split.
      { rewrite Hc', Hc1, Hs1, Zplus_mod_idemp_l. f_equal. lia. }
      split; [congruence|]. split; [congruence|]. split; [congruence|].
      split; [|exact Hok']. intros j. rewrite Hj'. apply Hj1. }
  intros s Hok. destruct (Hgen s Hok) as (s' & E & Hc & Hs & Hn & Hv & Hj & Hok').
  exists s'. split; [exact E|]. split; [exact Hc|]. split; [|auto 10].
  intros Hk. rewrite Hc, Hk.
  destruct (sched_okb_true s Hok) as (_ & _ & _ & _ & _ & Hr & _).
  rewrite <- (Z.mul_1_l (threads_table_size s)) at 1.
  rewrite Z.mod_add by lia. apply Z.mod_small. exact Hr.
Qed.

(** X5.  When [swapcontext] fails on SIGALRM the handler does not return:
    it has re-armed the alarm and already advanced [curr_thread], calls
    [perror] and ends the process with [EXIT_FAILURE]; the table, the heap
    and the counters are as they were. *)
Theorem failed_switch_exits (s : state) :
  sched_okb s = true ->
  exists s',
    thread_signals_handler SIGALRM false s = Exit EXIT_FAILURE s'
    /\ curr_thread s' = (curr_thread s + 1) mod threads_table_size s
    /\ trace s'
       = EvPerror
           :: EvSwapcontext (Some (curr_thread s))
                (Some ((curr_thread s + 1) mod threads_table_size s)) false
           :: EvAlarm QUANTUM :: trace s
    /\ threads_table s' = threads_table s
    /\ heap_live s' = heap_live s
    /\ vtime s' = vtime s
    /\ next_position s' = next_position s.
Proof.
  intros Hok.
  destruct (sched_okb_true s Hok) as (p & slots & Ht & Hl & Hn & Hc & Hm).
  destruct (lookup_in_table slots (curr_thread s) _ Hn Hc) as [sl Hsl].
  eexists. split.
  { exact (handler_sigalrm_ret s p slots sl false Ht Hl Hn Hc Hm Hsl). }
  repeat split.
Qed.

End Facts.

Lemma round_robin_witness :
  exists s',
    deliver (repeat (SIGALRM, true) 3) partial3 = Ret tt s'
    /\ curr_thread s' = curr_thread partial3.
Proof.
  destruct (round_robin 3 partial3 eq_refl) as (s' & E & _ & Hc & _).
  exists s'. split; [exact E|]. apply Hc. reflexivity.
Defined.

Lemma failed_switch_exits_witness :
  exists s',
    thread_signals_handler SIGALRM false full2 = Exit EXIT_FAILURE s'
    /\ curr_thread s' = 1.
Proof.
  destruct (failed_switch_exits full2 eq_refl) as (s' & E & Hc & _).
  exists s'. split; [exact E|exact Hc].
Defined.

End UtPreemption.

(** * The virtual clock *)

Module UtClock.
Import Ut UtRuns UtFacts.

Section Facts.
Context `{ut_header} {prog : host}.

(** ** Accounting over mixed runs *)

Lemma counter_le_sum (slots : list Slot.ut_slot_t) :
  forallb (fun sl => 0 <=? Slot.vtime sl) slots = true ->
  0 <= sum_vtime slots
  /\ forall i sl, slots !! i = Some sl ->
                  0 <= Slot.vtime sl <= sum_vtime slots.
Proof.
  induction slots as [|x rest IH]; intros Hall.
  - split; [reflexivity|]. intros i sl Hi. destruct i; discriminate.
  - cbn [forallb] in Hall. apply andb_true_iff in Hall.
    destruct Hall as [Hx Hr]. apply Z.leb_le in Hx.
    destruct (IH Hr) as [H0 Hle]. rewrite sum_vtime_cons.
    split; [lia|]. intros [|i] sl Hi.
    + injection Hi as <-. lia.
    + specialize (Hle i sl Hi). lia.
Qed.

Lemma forallb_insert {A} (f : A -> bool) (l : list A) (i : nat) (x : A) :
  forallb f l = true -> f x = true -> forallb f (<[i := x]> l) = true.
Proof.
  revert i. induction l as [|y l IH]; intros i Hl Hx; [exact Hl|].
  cbn [forallb] in Hl. apply andb_true_iff in Hl. destruct Hl as [Hy Hl].
  destruct i as [|i].
  - change (<[0%nat := x]> (y :: l)) with (x :: l). cbn [forallb].
    rewrite Hx, Hl. reflexivity.
  - change (<[S i := x]> (y :: l)) with (y :: <[i := x]> l). cbn [forallb].
    rewrite Hy, IH by assumption. reflexivity.
Qed.

Lemma tick_count_nonneg sigs : 0 <= tick_count sigs.
Proof. unfold tick_count. lia. Qed.

Lemma tick_count_cons x sigs :
  tick_count (x :: sigs)
  = (if fst x =? SIGVTALRM then 1 else 0) + tick_count sigs.
Proof.
  unfold tick_count. cbn [List.filter].
  destruct (fst x =? SIGVTALRM); cbn [length]; lia.
Qed.

Lemma accountedb_true s :
  accountedb s = true ->
  sched_okb s = true
  /\ forallb (fun sl => 0 <=? Slot.vtime sl) (slots_of s) = true
  /\ sum_vtime (slots_of s) = vtime s.
Proof.
  unfold accountedb. rewrite !andb_true_iff, Z.eqb_eq. tauto.
Qed.

Lemma accountedb_intro s :
  sched_okb s = true ->
  forallb (fun sl => 0 <=? Slot.vtime sl) (slots_of s) = true ->
  sum_vtime (slots_of s) = vtime s ->
  accountedb s = true.
Proof.
  intros H1 H2 H3. unfold accountedb. rewrite H1, H2. apply Z.eqb_eq in H3.
  rewrite H3. reflexivity.
Qed.

(** One signal of the clock keeps the books. *)
Lemma account_step signal ok s :
  accountedb s = true -> clock_signal (signal, ok) = true ->
  vtime s + (if signal =? SIGVTALRM then INTERVAL_MICRO else 0)
    < ULONG_MODULUS ->
  exists s',
    thread_signals_handler signal ok s = Ret tt s'
    /\ accountedb s' = true
    /\ vtime s'
       = vtime s + (if signal =? SIGVTALRM then INTERVAL_MICRO else 0)
    /\ threads_table_size s' = threads_table_size s.
Proof.
  intros Hacc Hsig Hroom.
  destruct (accountedb_true s Hacc) as (Hok & Hnn & Hsum).
  destruct (sched_okb_true s Hok) as (p & slots & Ht & Hl & Hn & Hc & Hm).
  destruct (lookup_in_table slots (curr_thread s) _ Hn Hc) as [sl Hsl].
  assert (Hslots : slots_of s = slots) by (unfold slots_of; rewrite Ht; reflexivity).
  rewrite Hslots in Hnn, Hsum.
  destruct (counter_le_sum slots Hnn) as [Hs0 Hle].
  specialize (Hle _ _ Hsl).
  unfold clock_signal in Hsig. cbn [fst snd] in Hsig.
  destruct (Z.eqb_spec signal SIGVTALRM) as [->|Hnv].
  - eexists. split.
    { apply (handler_sigvtalrm_ret s p slots sl ok Ht Hl); [lia|exact Hsl]. }
    assert (Ev : ulong_add (vtime s) INTERVAL_MICRO = vtime s + INTERVAL_MICRO).
    { unfold ulong_add. apply Z.mod_small. unfold INTERVAL_MICRO in *. lia. }
    assert (Ec : ulong_add (Slot.vtime sl) INTERVAL_MICRO
                 = Slot.vtime sl + INTERVAL_MICRO).
    { unfold ulong_add. apply Z.mod_small. unfold INTERVAL_MICRO in *. lia. }
    split; [|split; [exact Ev|reflexivity]].
    apply accountedb_intro.
    + eapply sched_okb_intro; cbn; eauto. rewrite length_insert. exact Hn.
    + unfold slots_of. cbn [threads_table set_threads_table].
      apply forallb_insert; [exact Hnn|]. cbn [Slot.vtime Slot.set_vtime].
      apply Z.leb_le. rewrite Ec. unfold INTERVAL_MICRO. lia.
    + unfold slots_of. cbn [threads_table set_threads_table vtime set_vtime].
      rewrite (sum_vtime_insert slots _ sl _ Hsl).
      cbn [Slot.vtime Slot.set_vtime]. rewrite Ev, Ec. lia.
  - rewrite orb_false_r in Hsig. apply andb_true_iff in Hsig.
    destruct Hsig as [Hs ->]. apply Z.eqb_eq in Hs. subst signal.
    eexists. split.
    { exact (handler_sigalrm_ret s p slots sl true Ht Hl Hn Hc Hm Hsl). }
    split; [|split; [cbn; lia|reflexivity]].
    destruct (next_in_range _ _ Hc) as [_ Hnext].
    apply accountedb_intro.
    + eapply sched_okb_intro; cbn; eauto. rewrite length_insert. exact Hn.
    + unfold slots_of. cbn [threads_table set_threads_table].
      apply forallb_insert; [exact Hnn|]. cbn.
      apply Z.leb_le. lia.
    + unfold slots_of. cbn [threads_table set_threads_table vtime add_event
                            set_curr_thread].
      rewrite (sum_vtime_insert slots _ sl _ Hsl). cbn. lia.
Qed.

Lemma account_run sigs : forall s,
  accountedb s = true -> forallb clock_signal sigs = true ->
  vtime s + INTERVAL_MICRO * tick_count sigs < ULONG_MODULUS ->
  exists s',
    deliver sigs s = Ret tt s'
    /\ accountedb s' = true
    /\ vtime s' = vtime s + INTERVAL_MICRO * tick_count sigs
    /\ threads_table_size s' = threads_table_size s.
Proof.
  induction sigs as [|[signal ok] rest IH]; intros s Hacc Hall Hroom.
  - exists s. split; [reflexivity|]. split; [exact Hacc|].
    split; [unfold tick_count; cbn; lia|reflexivity].
  - cbn [forallb] in Hall. apply andb_true_iff in Hall.
    destruct Hall as [Hsig Hall].
    rewrite tick_count_cons in Hroom |- *. cbn [fst] in Hroom |- *.
    pose proof (tick_count_nonneg rest) as Hnn.
    destruct (account_step signal ok s Hacc Hsig) as (s1 & E1 & Hacc1 & Hv1 & Hs1).
    { destruct (signal =? SIGVTALRM); unfold INTERVAL_MICRO in *; lia. }
    destruct (IH s1 Hacc1 Hall) as (s' & E' & Hacc' & Hv' & Hs').
    { rewrite Hv1. destruct (signal =? SIGVTALRM);
        unfold INTERVAL_MICRO in *; lia. }
    exists s'. cbn [deliver]. rewrite (bind_ret _ _ _ _ _ E1).
    split; [exact E'|]. split; [exact Hacc'|].
    split; [|congruence].
    rewrite Hv', Hv1. destruct (signal =? SIGVTALRM);
      unfold INTERVAL_MICRO; lia.
Qed.

Lemma fresh_is_accounted s :
  fresh_fullb s = true -> accountedb s = true /\ vtime s = 0.
Proof.
  unfold fresh_fullb. rewrite !andb_true_iff.
  intros [[[Hok _] Hv] Hz]. apply Z.eqb_eq in Hv. split; [|exact Hv].
  apply accountedb_intro; [exact Hok| |].
  - apply forallb_forall. intros sl Hin.
    rewrite forallb_forall in Hz. specialize (Hz sl Hin).
    apply Z.eqb_eq in Hz. apply Z.leb_le. lia.
  - rewrite sum_vtime_zero by exact Hz. congruence.
Qed.

(** X6.  The books of the virtual clock stay balanced while threads are
    switched: from a fresh, fully spawned table, after any run of SIGVTALRM
    and successful SIGALRM signals in any order (short of [2 ^ 64] virtual
    time), the accumulator is 100 times the number of ticks, the counters of
    all slots add up to the accumulator, no counter exceeds it, and
    [ut_get_vtime] returns each slot's counter. *)
Theorem clock_accounting (sigs : list (Z * bool)) (s : state) :
  fresh_fullb s = true ->
  forallb clock_signal sigs = true ->
  INTERVAL_MICRO * tick_count sigs < ULONG_MODULUS ->
  exists s',
    deliver sigs s = Ret tt s'
    /\ vtime s' = INTERVAL_MICRO * tick_count sigs
    /\ sum_vtime (slots_of s') = vtime s'
    /\ (forall j, 0 <= slot_vtime j s' <= vtime s')
    /\ (forall tid,
          0 <= tid < threads_table_size s' ->
          ut_get_vtime tid s' = Ret (slot_vtime (Z.to_nat tid) s') s').
Proof.
  intros Hf Hall Hroom.
  destruct (fresh_is_accounted s Hf) as [Hacc Hv0].
  destruct (account_run sigs s Hacc Hall) as (s' & E & Hacc' & Hv' & Hs').
  { rewrite Hv0. exact Hroom. }
  exists s'. split; [exact E|]. split; [rewrite Hv', Hv0; reflexivity|].
  destruct (accountedb_true s' Hacc') as (Hok & Hnn & Hsum).
  split; [exact Hsum|].
  destruct (counter_le_sum _ Hnn) as [Hs0 Hle]. split.
  - intros j. unfold slot_vtime. destruct (slots_of s' !! j) as [sl|] eqn:Ej.
    + rewrite <- Hsum. eapply Hle. exact Ej.
    + lia.
  - intros tid Htid.
    destruct (sched_okb_true s' Hok) as (p & slots & Ht & Hl & Hn & _ & _).
    destruct (lookup_in_table slots tid _ Hn Htid) as [sl Hsl].
    rewrite (ut_get_vtime_in_range tid s' p slots sl Ht Hl Htid Hsl).
    unfold slot_vtime, slots_of. rewrite Ht, Hsl. reflexivity.
Qed.

End Facts.

Lemma clock_accounting_witness :
  exists s',
    deliver [(SIGVTALRM, true); (SIGALRM, true); (SIGVTALRM, false);
             (SIGVTALRM, true); (SIGALRM, true)] full2 = Ret tt s'
    /\ vtime s' = 300
    /\ sum_vtime (slots_of s') = vtime s'.
Proof.
  destruct (clock_accounting
              [(SIGVTALRM, true); (SIGALRM, true); (SIGVTALRM, false);
               (SIGVTALRM, true); (SIGALRM, true)] full2
              eq_refl eq_refl eq_refl) as (s' & E & Hv & Hs & _).
  exists s'. split; [exact E|]. split; [exact Hv|exact Hs].
Defined.

End UtClock.

(** * Who owns which block *)

Module UtOwnership.
Import Ut UtRuns UtFacts.

Ltac mstep :=
  first [ rewrite bind_assoc | rewrite bind_get | rewrite bind_modify
        | rewrite bind_mret ].

(** ** Spawning *)

Lemma spawn_okb_true s :
  spawn_okb s = true ->
  exists p slots,
    threads_table s = Some (p, slots) /\ is_live p s = true
    /\ Z.of_nat (length slots) = threads_table_size s
    /\ 0 <= next_position s < threads_table_size s.
Proof.
  unfold spawn_okb. destruct (threads_table s) as [[p slots]|]; [|discriminate].
  rewrite !andb_true_iff. intros [[[Hl Hn] H0] H1].
  exists p, slots. repeat split; auto; lia.
Qed.

Section Facts.
Context `{ut_header} {prog : host}.

Lemma spawn_success f a s :
  spawn_okb s = true ->
  ut_spawn_thread f a true true s = Ret (next_position s) (after_spawn f a s).
Proof.
  intros Hok. destruct (spawn_okb_true s Hok) as (p & slots & Ht & Hl & Hn & Hr).
  rewrite (spawn_ret s p slots f a Ht Hl) by lia.
  unfold after_spawn, slots_of. rewrite Ht. reflexivity.
Qed.

Lemma spawn_no_memory f a getcontext_ok s :
  next_position s <> threads_table_size s ->
  ut_spawn_thread f a false getcontext_ok s
  = Ret SYS_ERR (add_event (EvMalloc NULL) s).
Proof.
  intros Hne. unfold ut_spawn_thread. rewrite bind_get.
  destruct (Z.eqb_spec (next_position s) (threads_table_size s)) as [|_];
    [contradiction|].
  unfold malloc, log. repeat mstep. reflexivity.
Qed.

Lemma spawn_no_context f a s :
  spawn_okb s = true ->
  ut_spawn_thread f a true false s = Ret SYS_ERR (after_lost_stack s).
Proof.
  intros Hok. destruct (spawn_okb_true s Hok) as (p & slots & Ht & Hl & Hn & Hr).
  destruct (lookup_in_table slots (next_position s) _ Hn Hr) as [sl Hsl].
  unfold ut_spawn_thread. rewrite bind_get.
  destruct (Z.eqb_spec (next_position s) (threads_table_size s)) as [|_];
    [lia|].
  unfold malloc, log. repeat mstep.
  change (Z.pos (heap_next s) =? NULL) with false. cbv iota.
  set (s1 := add_event (EvMalloc _) _).
  assert (Hl0 : is_live p s1 = true).
  { unfold is_live in *. cbn. rewrite Hl. apply orb_true_r. }
  rewrite (bind_ret _ _ _ _ _
             (load_slot_ret s1 p slots (next_position s) sl Ht Hl0
                (proj1 Hr) Hsl)).
  repeat mstep. reflexivity.
Qed.

(** ** Ownership of the stacks *)

Lemma owned_prefixb_true s :
  owned_prefixb s = true ->
  exists p slots,
    threads_table s = Some (p, slots)
    /\ Z.of_nat (length slots) = threads_table_size s
    /\ 0 <= next_position s <= threads_table_size s
    /\ distinctb (p :: spawned_stacks s) = true
    /\ forallb (fun q => negb (q =? NULL) && is_live q s)
                (p :: spawned_stacks s) = true
    /\ heap_freshb s = true.
Proof.
  unfold owned_prefixb.
  destruct (threads_table s) as [[p slots]|]; [|discriminate].
  rewrite !andb_true_iff. intros [[[[[Hn H0] H1] Hd] Hl] Hf].
  exists p, slots. repeat split; auto; lia.
Qed.

Lemma owned_prefixb_intro s p slots :
  threads_table s = Some (p, slots) ->
  Z.of_nat (length slots) = threads_table_size s ->
  0 <= next_position s <= threads_table_size s ->
  distinctb (p :: spawned_stacks s) = true ->
  forallb (fun q => negb (q =? NULL) && is_live q s)
          (p :: spawned_stacks s) = true ->
  heap_freshb s = true ->
  owned_prefixb s = true.
Proof.
  intros Ht Hn Hr Hd Hl Hf. unfold owned_prefixb. rewrite Ht, Hd, Hl, Hf.
  rewrite !andb_true_iff. repeat split; lia.
Qed.

Lemma fresh_not_among (x : Z) (l : list Z) :
  forallb (fun q => q <? x) l = true -> existsb (Z.eqb x) l = false.
Proof.
  induction l as [|y l IH]; [reflexivity|]. cbn [forallb existsb].
  rewrite andb_true_iff. intros [Hy Hl]. apply Z.ltb_lt in Hy.
  rewrite (IH Hl), orb_false_r. apply Z.eqb_neq. lia.
Qed.

Lemma existsb_eqb_sub (x : Z) (l k : list Z) :
  forallb (fun q => existsb (Z.eqb q) k) l = true ->
  existsb (Z.eqb x) k = false -> existsb (Z.eqb x) l = false.
Proof.
  induction l as [|y l IH]; [reflexivity|]. cbn [forallb existsb].
  rewrite andb_true_iff. intros [Hy Hl] Hx. rewrite (IH Hl Hx), orb_false_r.
  apply Z.eqb_neq. intros ->. congruence.
Qed.

Lemma distinctb_snoc (l : list Z) (x : Z) :
  distinctb l = true -> existsb (Z.eqb x) l = false ->
  distinctb (l ++ [x]) = true.
Proof.
  induction l as [|y l IH]; [reflexivity|].
  cbn [distinctb existsb app]. rewrite andb_true_iff, negb_true_iff.
  rewrite orb_false_iff. intros [Hy Hd] [Hxy Hx].
  rewrite existsb_app, Hy. cbn [existsb].
  rewrite (Z.eqb_sym y x), Hxy. rewrite (IH Hd Hx). reflexivity.
Qed.

Lemma live_is_among (l : list Z) s :
  forallb (fun q => negb (q =? NULL) && is_live q s) l = true ->
  forallb (fun q => existsb (Z.eqb q) (heap_live s)) l = true.
Proof.
  intros Hl. apply forallb_forall. intros q Hq.
  rewrite forallb_forall in Hl. specialize (Hl q Hq).
  apply andb_true_iff in Hl. exact (proj2 Hl).
Qed.

Lemma slots_of_after_spawn f a s :
  slots_of (after_spawn f a s)
  = <[Z.to_nat (next_position s) := spawned (Z.pos (heap_next s)) f a]>
      (slots_of s).
Proof. reflexivity. Qed.

(** What a stack allocated for the slot at [next_position] does to the
    stacks of the spawned slots. *)
Lemma spawned_stacks_after f a s :
  spawn_okb s = true ->
  spawned_stacks (after_spawn f a s)
  = spawned_stacks s ++ [Z.pos (heap_next s)].
Proof.
  intros Hok. destruct (spawn_okb_true s Hok) as (p & slots & Ht & Hl & Hn & Hr).
  assert (Hs : slots_of s = slots) by (unfold slots_of; rewrite Ht; reflexivity).
  unfold spawned_stacks, stacks_of. rewrite slots_of_after_spawn.
  change (next_position (after_spawn f a s)) with (next_position s + 1).
  rewrite Hs. rewrite list_fmap_insert. cbn [ss_sp uc_stack Slot.uc spawned].
  replace (Z.to_nat (next_position s + 1))
    with (S (Z.to_nat (next_position s))) by lia.
  rewrite (take_S_r _ _ (Z.pos (heap_next s))).
  - rewrite take_insert_ge by lia. reflexivity.
  - apply list_lookup_insert_eq. rewrite length_fmap. lia.
Qed.

Lemma forallb_live_mono (l : list Z) s s' :
  (forall q, is_live q s = true -> is_live q s' = true) ->
  forallb (fun q => negb (q =? NULL) && is_live q s) l = true ->
  forallb (fun q => negb (q =? NULL) && is_live q s') l = true.
Proof.
  intros Hm Hl. apply forallb_forall. intros q Hq.
  rewrite forallb_forall in Hl. specialize (Hl q Hq).
  apply andb_true_iff in Hl. destruct Hl as [H0 Hl].
  rewrite H0, (Hm q Hl). reflexivity.
Qed.

Lemma forallb_ltb_mono (l : list Z) (x y : Z) :
  x <= y -> forallb (fun q => q <? x) l = true ->
  forallb (fun q => q <? y) l = true.
Proof.
  intros Hxy Hl. apply forallb_forall. intros q Hq.
  rewrite forallb_forall in Hl. specialize (Hl q Hq).
  apply Z.ltb_lt in Hl. apply Z.ltb_lt. lia.
Qed.

Lemma forallb_among_mono (l k k' : list Z) :
  (forall q, existsb (Z.eqb q) k = true -> existsb (Z.eqb q) k' = true) ->
  forallb (fun q => existsb (Z.eqb q) k) l = true ->
  forallb (fun q => existsb (Z.eqb q) k') l = true.
Proof.
  intros Hm Hl. apply forallb_forall. intros q Hq.
  rewrite forallb_forall in Hl. auto.
Qed.

Lemma spawn_okb_of_owned s :
  owned_prefixb s = true -> next_position s < threads_table_size s ->
  spawn_okb s = true.
Proof.
  intros Hown Hlt.
  destruct (owned_prefixb_true s Hown) as (p & slots & Ht & Hn & Hr & _ & Hl & _).
  cbn [forallb] in Hl. apply andb_true_iff in Hl. destruct Hl as [Hp _].
  apply andb_true_iff in Hp. destruct Hp as [_ Hp].
  unfold spawn_okb. rewrite Ht, Hp. rewrite !andb_true_iff.
  repeat split; try apply Z.eqb_eq; try apply Z.leb_le; try apply Z.ltb_lt;
    lia.
Qed.

(** A successful spawn keeps the stacks apart. *)
Lemma owned_after_spawn f a s :
  owned_prefixb s = true -> next_position s < threads_table_size s ->
  owned_prefixb (after_spawn f a s) = true
  /\ (tightb s = true -> tightb (after_spawn f a s) = true).
Proof.
  intros Hown Hlt. pose proof (spawn_okb_of_owned s Hown Hlt) as Hok.
  destruct (owned_prefixb_true s Hown) as (p & slots & Ht & Hn & Hr & Hd & Hl & Hf).
  set (stack := Z.pos (heap_next s)).
  assert (Hfresh : existsb (Z.eqb stack) (heap_live s) = false)
    by (apply fresh_not_among; exact Hf).
  assert (Hnew : existsb (Z.eqb stack) (p :: spawned_stacks s) = false).
  { apply (existsb_eqb_sub stack _ (heap_live s)); [|exact Hfresh].
    apply live_is_among. exact Hl. }
  assert (Hst : spawned_stacks (after_spawn f a s)
                = spawned_stacks s ++ [stack])
    by (apply spawned_stacks_after; exact Hok).
  assert (Ht' : threads_table (after_spawn f a s)
                = Some (p, <[Z.to_nat (next_position s) :=
                               spawned stack f a]> slots)).
  { unfold after_spawn, slots_of. cbn. rewrite Ht. reflexivity. }
  assert (Hmono : forall q, is_live q s = true ->
                            is_live q (after_spawn f a s) = true).
  { intros q Hq. unfold is_live in *. cbn. rewrite Hq. apply orb_true_r. }
  split.
  - eapply owned_prefixb_intro; [exact Ht'| | | | |].
    + rewrite length_insert. exact Hn.
    + cbn. lia.
    + rewrite Hst. change (p :: spawned_stacks s ++ [stack])
        with ((p :: spawned_stacks s) ++ [stack]).
      apply distinctb_snoc; assumption.
    + rewrite Hst. change (p :: spawned_stacks s ++ [stack])
        with ((p :: spawned_stacks s) ++ [stack]).
      rewrite forallb_app. apply andb_true_iff. split.
      * exact (forallb_live_mono _ s _ Hmono Hl).
      * cbn [forallb]. unfold is_live. cbn. rewrite Pos.eqb_refl.
        reflexivity.
    + unfold heap_freshb. cbn [heap_live heap_next after_spawn
                               set_next_position set_threads_table add_event
                               set_heap forallb].
      apply andb_true_iff. split; [apply Z.ltb_lt; unfold stack; lia|].
      apply (forallb_ltb_mono _ (Z.pos (heap_next s))); [lia|exact Hf].
  - intros Htight. unfold tightb in *. rewrite Ht in Htight. rewrite Ht', Hst.
    cbn [heap_live after_spawn set_next_position set_threads_table add_event
         set_heap forallb].
    apply andb_true_iff. split.
    + change (p :: spawned_stacks s ++ [stack])
        with ((p :: spawned_stacks s) ++ [stack]).
      rewrite existsb_app. cbn [existsb]. rewrite Z.eqb_refl.
      rewrite orb_true_r. reflexivity.
    + apply (forallb_among_mono _ (p :: spawned_stacks s)); [|exact Htight].
      intros q Hq. change (p :: spawned_stacks s ++ [stack])
        with ((p :: spawned_stacks s) ++ [stack]).
      rewrite existsb_app. apply orb_true_iff. left. exact Hq.
Qed.

(** A stack lost to a failed [getcontext] does no harm to the others. *)
Lemma owned_after_lost_stack s :
  owned_prefixb s = true ->
  owned_prefixb (after_lost_stack s) = true.
Proof.
  intros Hown.
  destruct (owned_prefixb_true s Hown) as (p & slots & Ht & Hn & Hr & Hd & Hl & Hf).
  assert (Hmono : forall q, is_live q s = true ->
                            is_live q (after_lost_stack s) = true).
  { intros q Hq. unfold is_live in *. cbn. rewrite Hq. apply orb_true_r. }
  eapply (owned_prefixb_intro _ p slots); try assumption.
  - exact (forallb_live_mono _ s _ Hmono Hl).
  - unfold heap_freshb. cbn [heap_live heap_next after_lost_stack add_event
                             set_heap forallb].
    apply andb_true_iff. split; [apply Z.ltb_lt; lia|].
    apply (forallb_ltb_mono _ (Z.pos (heap_next s))); [lia|exact Hf].
Qed.

(** On a table with the stacks apart every spawn returns, whatever the
    library calls answer, and keeps them apart. *)
Lemma spawn_safe f a stack_ok getcontext_ok s :
  owned_prefixb s = true ->
  exists r s',
    ut_spawn_thread f a stack_ok getcontext_ok s = Ret r s'
    /\ owned_prefixb s' = true
    /\ threads_table_size s' = threads_table_size s
    /\ (r = TAB_FULL \/ r = SYS_ERR
        \/ (r = next_position s /\ 0 <= r < threads_table_size s)).
Proof.
  intros Hown.
  destruct (owned_prefixb_true s Hown) as (p & slots & Ht & Hn & Hr & _).
  destruct (Z.eq_dec (next_position s) (threads_table_size s)) as [E|Hne].
  { exists TAB_FULL, s. split; [apply spawn_full; exact E|]. auto. }
  assert (Hlt : next_position s < threads_table_size s) by lia.
  pose proof (spawn_okb_of_owned s Hown Hlt) as Hok.
  destruct stack_ok.
  - destruct getcontext_ok.
    + exists (next_position s), (after_spawn f a s).
      split; [apply spawn_success; exact Hok|].
      split; [apply owned_after_spawn; assumption|].
      split; [reflexivity|]. right. right. split; [reflexivity|lia].
    + exists SYS_ERR, (after_lost_stack s).
      split; [apply spawn_no_context; exact Hok|].
      split; [apply owned_after_lost_stack; exact Hown|]. auto.
  - exists SYS_ERR, (add_event (EvMalloc NULL) s).
    split; [apply spawn_no_memory; exact Hne|]. auto.
Qed.

Lemma spawns_safe calls : forall s,
  owned_prefixb s = true ->
  exists ids s',
    spawns calls s = Ret ids s'
    /\ owned_prefixb s' = true
    /\ threads_table_size s' = threads_table_size s
    /\ length ids = length calls
    /\ Forall (fun r => r = TAB_FULL \/ r = SYS_ERR
                        \/ 0 <= r < threads_table_size s) ids.
Proof.
  induction calls as [|[[[f a] o1] o2] rest IH]; intros s Hown.
  - exists [], s. repeat split; auto.
  - destruct (spawn_safe f a o1 o2 s Hown) as (r & s1 & E1 & Hown1 & Hs1 & Hr).
    destruct (IH s1 Hown1) as (ids & s' & E' & Hown' & Hs' & Hlen & Hall).
    exists (r :: ids), s'. cbn [spawns].
    rewrite (bind_ret _ _ _ _ _ E1), (bind_ret _ _ _ _ _ E').
    split; [reflexivity|]. split; [exact Hown'|]. split; [congruence|].
    split; [cbn; congruence|]. constructor.
    + destruct Hr as [?|[?|[_ ?]]]; auto.
    + rewrite <- Hs1. exact Hall.
Qed.

(** [ut_init] without an old table sets the ownership up. *)
Lemma init_owned n g s :
  threads_table s = None -> heap_freshb s = true -> 0 <= clamp n ->
  exists s',
    ut_init n (Some g) s = Ret 0 s'
    /\ owned_prefixb s' = true
    /\ (heap_live s = [] -> tightb s' = true)
    /\ next_position s' = 0
    /\ threads_table_size s' = clamp n
    /\ curr_thread s' = 0
    /\ vtime s' = vtime s
    /\ threads_table s' = Some (Z.pos (heap_next s), g <$> seqZ 0 (clamp n))
    /\ heap_live s' = Z.pos (heap_next s) :: heap_live s.
Proof.
  intros Ht Hf Hn. eexists.
  rewrite (ut_init_first n (Some g) s Ht), init_rest_ret. cbv zeta.
  split; [reflexivity|].
  split; [|split; [|repeat split]].
  - eapply owned_prefixb_intro; [reflexivity| | | | |].
    + cbn. rewrite length_fmap, length_seqZ. lia.
    + cbn. lia.
    + reflexivity.
    + unfold spawned_stacks. cbn. rewrite Pos.eqb_refl. reflexivity.
    + unfold heap_freshb. cbn [heap_live heap_next set_threads_table add_event
                               set_heap forallb].
      apply andb_true_iff. split; [apply Z.ltb_lt; lia|].
      apply (forallb_ltb_mono _ (Z.pos (heap_next s))); [lia|exact Hf].
  - intros He. unfold tightb. cbn. rewrite He. cbn. rewrite Pos.eqb_refl.
    reflexivity.
Qed.

End Facts.
End UtOwnership.

(** * Spawning *)

Module UtSpawning.
Import Ut UtRuns UtFacts UtOwnership.

Section Facts.
Context `{ut_header} {prog : host}.

(** As many successful spawns as fit, on a table with the stacks apart. *)
Lemma fill_owned calls : forall s,
  forallb (fun c => snd (fst c) && snd c) calls = true ->
  owned_prefixb s = true ->
  next_position s + Z.of_nat (length calls) <= threads_table_size s ->
  exists s',
    spawns calls s
    = Ret (seqZ (next_position s) (Z.of_nat (length calls))) s'
    /\ owned_prefixb s' = true
    /\ (tightb s = true -> tightb s' = true)
    /\ next_position s' = next_position s + Z.of_nat (length calls)
    /\ threads_table_size s' = threads_table_size s
    /\ curr_thread s' = curr_thread s
    /\ vtime s' = vtime s
    /\ old_sigaction s' = old_sigaction s.
Proof.
  induction calls as [|[[[f a] o1] o2] rest IH]; intros s Hall Hown Hfit.
  - exists s. cbn [length spawns]. split; [reflexivity|].
    repeat split; auto. cbn. lia.
  - cbn [forallb fst snd] in Hall. apply andb_true_iff in Hall.
    destruct Hall as [Ho Hall]. apply andb_true_iff in Ho.
    destruct Ho as [-> ->]. cbn [length] in Hfit |- *.
    assert (Hlt : next_position s < threads_table_size s) by lia.
    pose proof (spawn_okb_of_owned s Hown Hlt) as Hok.
    destruct (owned_after_spawn f a s Hown Hlt) as [Hown1 Htight1].
    destruct (IH (after_spawn f a s) Hall Hown1)
      as (s' & E' & Hown' & Htight' & Hnp' & Hs' & Hc' & Hv' & Ho');
      [cbn; lia|].
    exists s'. cbn [spawns].
    rewrite (bind_ret _ _ _ _ _ (spawn_success f a s Hok)).
    rewrite (bind_ret _ _ _ _ _ E').
    split.
    { unfold mret, M_ret. f_equal.
      rewrite (seqZ_cons (next_position s)) by lia.
      replace (Z.pred (Z.of_nat (S (length rest))))
        with (Z.of_nat (length rest)) by lia.
      reflexivity. }
    split; [exact Hown'|]. split; [auto|].
    split; [rewrite Hnp'; cbn; lia|].
    split; [rewrite Hs'; reflexivity|]. split; [rewrite Hc'; reflexivity|].
    split; [rewrite Hv'; reflexivity|rewrite Ho'; reflexivity].
Qed.

(** With every slot spawned, every slot owns a stack. *)
Lemma owned_okb_of_full s :
  owned_prefixb s = true -> next_position s = threads_table_size s ->
  owned_okb s = true /\ spawned_stacks s = stacks_of s.
Proof.
  intros Hown Hfull.
  destruct (owned_prefixb_true s Hown) as (p & slots & Ht & Hn & Hr & Hd & Hl & _).
  assert (Hst : spawned_stacks s = stacks_of s).
  { unfold spawned_stacks. apply take_ge.
    unfold stacks_of, slots_of. rewrite Ht, length_fmap. lia. }
  split; [|exact Hst]. rewrite Hst in Hd, Hl.
  unfold owned_okb. rewrite Ht, Hd, Hl. apply Z.eqb_eq in Hn. rewrite Hn.
  reflexivity.
Qed.

Lemma spawns_on_full calls : forall s,
  next_position s = threads_table_size s ->
  spawns calls s = Ret (repeat TAB_FULL (length calls)) s.
Proof.
  induction calls as [|[[[f a] o1] o2] rest IH]; intros s E; [reflexivity|].
  cbn [spawns]. rewrite (bind_ret _ _ _ _ _ (spawn_full s f a o1 o2 E)).
  rewrite (bind_ret _ _ _ _ _ (IH s E)). reflexivity.
Qed.

Lemma spawns_app calls more s ids s1 ids' s2 :
  spawns calls s = Ret ids s1 -> spawns more s1 = Ret ids' s2 ->
  spawns (calls ++ more) s = Ret (ids ++ ids') s2.
Proof.
  revert s ids. induction calls as [|[[[f a] o1] o2] rest IH];
    intros s ids E1 E2.
  - cbn in E1. injection E1 as <- <-. exact E2.
  - cbn [spawns app] in E1 |- *. rewrite bind_run in E1 |- *.
    destruct (ut_spawn_thread f a o1 o2 s) as [r s0|c s0|ft];
      [|discriminate|discriminate].
    rewrite bind_run in E1 |- *.
    destruct (spawns rest s0) as [rs s0'|c s0'|ft] eqn:Er;
      [|discriminate|discriminate].
    unfold mret, M_ret in E1. injection E1 as <- <-.
    rewrite (IH s0 rs Er E2). reflexivity.
Qed.

(** X7.  A successful [ut_spawn_thread] returns the old [next_position] as
    the thread's identifier and advances it by one; the slot of that index
    holds [func] and [arg], a counter of 0, the link to [uc_out] and a newly
    allocated stack of [STACKSIZE] bytes; every other slot, the table size,
    the running index and the accumulator are as before. *)
Theorem spawn_fills_one_slot (f : funptr) (a : Z) (s : state) :
  spawn_okb s = true ->
  exists s',
    ut_spawn_thread f a true true s = Ret (next_position s) s'
    /\ next_position s' = next_position s + 1
    /\ slots_of s' !! Z.to_nat (next_position s)
       = Some (Slot.Make
                 (Ucontext CtxUcOut (Stack (Z.pos (heap_next s)) STACKSIZE)
                           (McEntry f a))
                 0 f a)
    /\ (forall j, j <> Z.to_nat (next_position s) ->
                  slots_of s' !! j = slots_of s !! j)
    /\ heap_live s' = Z.pos (heap_next s) :: heap_live s
    /\ threads_table_size s' = threads_table_size s
    /\ curr_thread s' = curr_thread s
    /\ vtime s' = vtime s.
Proof.
  intros Hok. exists (after_spawn f a s).
  split; [apply spawn_success; exact Hok|].
  destruct (spawn_okb_true s Hok) as (p & slots & Ht & Hl & Hn & Hr).
  assert (Hs : slots_of s = slots) by (unfold slots_of; rewrite Ht; reflexivity).
  split; [reflexivity|]. rewrite slots_of_after_spawn, Hs.
  split; [apply list_lookup_insert_eq; lia|].
  split; [|repeat split].
  intros j Hj. apply list_lookup_insert_ne. auto.
Qed.


(** X9.  Spawning is memory safe and keeps the stacks apart.  After
    [ut_init] on a state without a table, every run of [ut_spawn_thread]
    calls returns, whatever [malloc] and [getcontext] answer and however many
    calls there are; each result is [TAB_FULL], [SYS_ERR] or an index into
    the table; and afterwards the table block and the stacks of the spawned
    slots are live, not NULL and pairwise different. *)
Theorem spawns_keep_stacks_apart (n : Z) (g : Z -> Slot.ut_slot_t)
    (calls : list (funptr * Z * bool * bool)) (s : state) :
  threads_table s = None -> heap_freshb s = true -> 0 <= clamp n ->
  exists s1 ids s2,
    ut_init n (Some g) s = Ret 0 s1
    /\ spawns calls s1 = Ret ids s2
    /\ length ids = length calls
    /\ Forall (fun r => r = TAB_FULL \/ r = SYS_ERR \/ 0 <= r < clamp n) ids
    /\ owned_prefixb s2 = true.
Proof.
  intros Ht Hf Hn.
  destruct (init_owned n g s Ht Hf Hn) as (s1 & Ei & Hown & _ & _ & Hsz & _).
  destruct (spawns_safe calls s1 Hown) as (ids & s2 & Es & Hown2 & _ & Hlen & Hall).
  exists s1, ids, s2. rewrite Hsz in Hall. auto.
Qed.

(** X10.  The table never takes more threads than it has slots:
    [ut_spawn_thread] calls that succeed return the identifiers
    [next_position], [next_position + 1], ... in order, and once the table is
    full every further call returns [TAB_FULL], whatever the library calls
    would answer, and changes nothing. *)
Theorem spawns_beyond_capacity
    (calls more : list (funptr * Z * bool * bool)) (s : state) :
  owned_prefixb s = true ->
  forallb (fun c => snd (fst c) && snd c) calls = true ->
  next_position s + Z.of_nat (length calls) = threads_table_size s ->
  exists s',
    spawns calls s
    = Ret (seqZ (next_position s) (Z.of_nat (length calls))) s'
    /\ spawns (calls ++ more) s
       = Ret (seqZ (next_position s) (Z.of_nat (length calls))
                ++ repeat TAB_FULL (length more)) s'
    /\ next_position s' = threads_table_size s'.
Proof.
  intros Hown Hall Hfit.
  destruct (fill_owned calls s Hall Hown) as (s' & E & _ & _ & Hnp & Hsz & _);
    [lia|].
  assert (Hfull : next_position s' = threads_table_size s') by lia.
  exists s'. split; [exact E|]. split; [|exact Hfull].
  apply (spawns_app calls more s _ s'); [exact E|].
  apply spawns_on_full. exact Hfull.
Qed.

(** X21.  A thread starts with no time on its account: right after
    [ut_spawn_thread] returns the identifier [tid], [ut_get_vtime tid] is 0,
    whatever bytes [malloc] had left in the slot, and the call changes what
    [ut_get_vtime] answers for no other identifier. *)
Theorem spawned_thread_reads_zero (f : funptr) (a : Z) (s : state) :
  spawn_okb s = true ->
  exists tid s',
    ut_spawn_thread f a true true s = Ret tid s'
    /\ ut_get_vtime tid s' = Ret 0 s'
    /\ forall t, 0 <= t < threads_table_size s -> t <> tid ->
         ut_get_vtime t s' = Ret (slot_vtime (Z.to_nat t) s) s'.
Proof.
  intros Hok. destruct (spawn_okb_true s Hok) as (p & slots & Ht & Hl & Hn & Hr).
  exists (next_position s), (after_spawn f a s).
  split; [apply spawn_success; exact Hok|].
  assert (Ht' : threads_table (after_spawn f a s)
                = Some (p, <[Z.to_nat (next_position s)
                             := spawned (Z.pos (heap_next s)) f a]> slots)).
  { unfold after_spawn, slots_of. rewrite Ht. reflexivity. }
  assert (Hl' : is_live p (after_spawn f a s) = true).
  { unfold is_live in *. cbn. rewrite Hl. apply orb_true_r. }
  split.
  - apply (ut_get_vtime_in_range _ _ p _ (spawned (Z.pos (heap_next s)) f a)
             Ht' Hl'); [exact Hr|].
    apply list_lookup_insert_eq. lia.
  - intros t Ht1 Ht2.
    destruct (lookup_in_table slots t _ Hn Ht1) as [sl Hsl].
    unfold slot_vtime, slots_of. rewrite Ht, Hsl.
    apply (ut_get_vtime_in_range _ _ p _ sl Ht' Hl'); [exact Ht1|].
    rewrite list_lookup_insert_ne; [exact Hsl|]. lia.
Qed.

End Facts.

Lemma spawn_fills_one_slot_witness :
  exists s',
    ut_spawn_thread (H:=sample_header) worker 9 true true partial3 = Ret 1 s'
    /\ next_position s' = 2.
Proof.
  destruct (spawn_fills_one_slot (H:=sample_header) worker 9 partial3 eq_refl)
    as (s' & E & Hn & _).
  exists s'. split; [exact E|exact Hn].
Defined.


Lemma spawns_keep_stacks_apart_witness :
  exists s1 ids s2,
    ut_init (H:=sample_header) 3 (Some stale) initial = Ret 0 s1
    /\ spawns (H:=sample_header) mixed_calls s1 = Ret ids s2
    /\ length ids = 4%nat
    /\ owned_prefixb s2 = true.
Proof.
  assert (Hn : 0 <= clamp (H:=sample_header) 3) by (vm_compute; discriminate).
  destruct (spawns_keep_stacks_apart (H:=sample_header) 3 stale mixed_calls
              initial eq_refl eq_refl Hn)
    as (s1 & ids & s2 & E1 & E2 & Hl & _ & Ho).
  exists s1, ids, s2. repeat split; assumption.
Defined.

Lemma spawns_beyond_capacity_witness :
  exists s',
    spawns (H:=sample_header) (two_calls ++ [(worker, 7, true, true)]) table2
    = Ret [0; 1; -2] s'
    /\ next_position s' = threads_table_size s'.
Proof.
  destruct (spawns_beyond_capacity (H:=sample_header) two_calls
              [(worker, 7, true, true)] table2 eq_refl eq_refl eq_refl)
    as (s' & _ & E & Hn).
  exists s'. split; [exact E|exact Hn].
Defined.

Lemma spawned_thread_reads_zero_witness :
  exists s',
    ut_spawn_thread (H:=sample_header) worker 9 true true partial3 = Ret 1 s'
    /\ ut_get_vtime 1 s' = Ret 0 s'
    /\ slot_vtime 1 partial3 = 7.
Proof.
  destruct (spawned_thread_reads_zero (H:=sample_header) worker 9 partial3
              eq_refl)
    as (tid & s' & E & Hz & _).
  assert (tid = 1) by (vm_compute in E; congruence). subst tid.
  exists s'. split; [exact E|]. split; [exact Hz|reflexivity].
Defined.

End UtSpawning.

(** * Starting *)

Module UtStarting.
Import Ut UtRuns UtFacts UtOwnership UtSpawning.

Ltac mstep :=
  first [ rewrite bind_assoc | rewrite bind_get | rewrite bind_modify
        | rewrite bind_mret ].

(** ** ut_start *)

Lemma setup_ok_true a :
  setup_ok a = true ->
  sigfillset_ok a = true /\ setitimer_ok a = true
  /\ sigaction_alrm_ok a = true /\ sigaction_vtalrm_ok a = true
  /\ sigaction_old_ok a = true /\ sigaction_int_ok a = true.
Proof. unfold setup_ok. rewrite !andb_true_iff. tauto. Qed.

Section Facts.
Context `{ut_header} {prog : host}.

(** [ut_start] with every set-up call succeeding, on a table with a slot
    0. *)
Lemma ut_start_ret a s p slots sl :
  setup_ok a = true ->
  threads_table s = Some (p, slots) -> is_live p s = true ->
  slots !! 0%nat = Some sl ->
  ut_start a s
  = Ret (if swapcontext_ok a then None else Some SYS_ERR)
        (started (previous_sigint a) (swapcontext_ok a) s).
Proof.
  intros Ha Ht Hl Hsl.
  destruct (setup_ok_true a Ha) as (H1 & H2 & H3 & H4 & H5 & H6).
  unfold ut_start. rewrite H1, H2, H3, H4, H5, H6. cbn [negb status].
  unfold alarm, log. repeat mstep. cbn [Z.add Z.eqb negb].
  repeat mstep.
  change (negb (0 + 0 + 0 + 0 + 0 =? 0)) with false. cbv iota.
  repeat mstep. unfold started. destruct (swapcontext_ok a); [|reflexivity].
  erewrite bind_ret; [|apply (load_slot_ret _ p slots 0 sl); auto; lia].
  reflexivity.
Qed.

(** [ut_start] with every set-up call succeeding and [swapcontext]
    failing, with a table or without. *)
Lemma ut_start_refused a s :
  setup_ok a = true -> swapcontext_ok a = false ->
  ut_start a s = Ret (Some SYS_ERR) (started (previous_sigint a) false s).
Proof.
  intros Ha Hsw.
  destruct (setup_ok_true a Ha) as (H1 & H2 & H3 & H4 & H5 & H6).
  unfold ut_start. rewrite H1, H2, H3, H4, H5, H6, Hsw. cbn [negb status].
  unfold alarm, log. repeat mstep.
  change (negb (0 + 0 + 0 + 0 + 0 =? 0)) with false. cbv iota.
  repeat mstep. reflexivity.
Qed.

(** The function of a spawned thread returns while [ut_start] stands in its
    [swapcontext]. *)
Lemma thread_function_returns_ret s p slots sl :
  threads_table s = Some (p, slots) -> is_live p s = true ->
  0 <= curr_thread s -> slots !! Z.to_nat (curr_thread s) = Some sl ->
  uc_link (Slot.uc sl) = CtxUcOut -> uc_out s = McSuspended ->
  thread_function_returns s = Ret SYS_ERR s.
Proof.
  intros Ht Hl Hc Hsl Hlink Hout. unfold thread_function_returns.
  rewrite bind_get.
  rewrite (bind_ret _ _ _ _ _ (load_slot_ret s p slots _ sl Ht Hl Hc Hsl)).
  rewrite Hlink, Hout. reflexivity.
Qed.

(** X11.  When one of its set-up calls fails, [ut_start] returns [SYS_ERR]
    and the scheduler has not been touched: the table, the indices, the heap,
    the accumulator and [uc_out] are as before, no alarm is armed and no
    context is switched.  The calls made up to the failure are not undone;
    when [sigfillset] fails there are none. *)
Theorem ut_start_failures (a : start_answers) (s : state) :
  setup_ok a = false ->
  exists s' made,
    ut_start a s = Ret (Some SYS_ERR) s'
    /\ trace s' = made ++ trace s
    /\ forallb setup_event made = true
    /\ (sigfillset_ok a = false -> s' = s)
    /\ threads_table s' = threads_table s
    /\ indices s' = indices s
    /\ heap_live s' = heap_live s
    /\ vtime s' = vtime s
    /\ uc_out s' = uc_out s.
Proof.
  destruct a as [b1 b2 b3 b4 b5 prev b6 sw]. unfold setup_ok, ut_start.
  cbn [sigfillset_ok setitimer_ok sigaction_alrm_ok sigaction_vtalrm_ok
       sigaction_old_ok sigaction_int_ok previous_sigint swapcontext_ok].
  intros Hf. destruct b1; cbn [negb].
  2:{ exists s, []. repeat split. }
  unfold log. rewrite bind_modify. destruct b2; cbn [negb].
  2:{ exists (add_event (EvSetitimer false) s), [EvSetitimer false].
      repeat split. intros; discriminate. }
  exists (add_event (EvSigaction SIGINT b6)
            ((if b5 then set_old_sigaction prev else fun s' => s')
               (add_event (EvSigaction SIGINT b5)
                  (add_event (EvSigaction SIGVTALRM b4)
                     (add_event (EvSigaction SIGALRM b3)
                        (add_event (EvSetitimer true) s)))))),
         [EvSigaction SIGINT b6; EvSigaction SIGINT b5;
          EvSigaction SIGVTALRM b4; EvSigaction SIGALRM b3; EvSetitimer true].
  destruct b3, b4, b5, b6; try discriminate Hf;
    repeat split; try reflexivity; intros; discriminate.
Qed.

(** X12.  [ut_start] with every set-up call succeeding stores the handler
    SIGINT had before, arms the alarm for one quantum and calls
    [swapcontext] from [uc_out] to slot 0, spawned or not.  If that call
    fails, [ut_start] returns [SYS_ERR] at once, with the handlers installed
    and the alarm armed, whether there is a table or not.  If it succeeds,
    slot 0 runs and [uc_out] holds the position inside [ut_start]; when slot
    0 was spawned and its function returns, [ut_start] returns [SYS_ERR] all
    the same, through the [uc_link] that [ut_spawn_thread] has set.  In no
    case are the table, the indices or the accumulator touched. *)
Theorem ut_start_hands_over (a : start_answers) (s : state) :
  setup_ok a = true ->
  (swapcontext_ok a = false ->
   ut_start a s = Ret (Some SYS_ERR) (started (previous_sigint a) false s)
   /\ threads_table (started (previous_sigint a) false s) = threads_table s)
  /\ (forall p slots sl,
        threads_table s = Some (p, slots) -> is_live p s = true ->
        slots !! 0%nat = Some sl ->
        exists s',
          ut_start a s
          = Ret (if swapcontext_ok a then None else Some SYS_ERR) s'
          /\ trace s'
             = EvSwapcontext None (Some 0) (swapcontext_ok a)
                 :: EvAlarm QUANTUM
                 :: EvSigaction SIGINT true :: EvSigaction SIGINT true
                 :: EvSigaction SIGVTALRM true :: EvSigaction SIGALRM true
                 :: EvSetitimer true :: trace s
          /\ old_sigaction s' = previous_sigint a
          /\ threads_table s' = threads_table s
          /\ indices s' = indices s
          /\ vtime s' = vtime s
          /\ (swapcontext_ok a = true ->
              uc_out s' = McSuspended
              /\ (curr_thread s = 0 -> uc_link (Slot.uc sl) = CtxUcOut ->
                  thread_function_returns s' = Ret SYS_ERR s'))).
Proof.
  intros Ha. split.
  - intros Hsw. split; [apply ut_start_refused; assumption|reflexivity].
  - intros p slots sl Ht Hl Hsl. eexists. split.
    + apply (ut_start_ret a s p slots sl Ha Ht Hl Hsl).
    + destruct (swapcontext_ok a); repeat split; try discriminate.
      intros Hc Hlink.
      apply (thread_function_returns_ret _ p slots sl); cbn; auto.
      * lia.
      * rewrite Hc. exact Hsl.
Qed.

End Facts.

Lemma ut_start_failures_witness :
  exists s',
    ut_start (H:=sample_header) vtalrm_refused spawned2 = Ret (Some (-1)) s'
    /\ threads_table s' = threads_table spawned2
    /\ uc_out s' = uc_out spawned2.
Proof.
  destruct (ut_start_failures (H:=sample_header) vtalrm_refused spawned2
              eq_refl)
    as (s' & made & E & _ & _ & _ & Ht & _ & _ & _ & Hu).
  exists s'. split; [exact E|]. split; [exact Ht|exact Hu].
Defined.

Lemma ut_start_hands_over_witness :
  exists s',
    ut_start (H:=sample_header) all_ok spawned2 = Ret None s'
    /\ old_sigaction s' = 0
    /\ thread_function_returns (H:=sample_header) s' = Ret (-1) s'.
Proof.
  destruct (proj2 (ut_start_hands_over (H:=sample_header) all_ok spawned2
                     eq_refl)
              _ _ _ eq_refl eq_refl eq_refl)
    as (s' & E & _ & Ho & _ & _ & _ & Hr).
  exists s'. split; [exact E|]. split; [exact Ho|].
  apply (proj2 (Hr eq_refl)); reflexivity.
Defined.

End UtStarting.

(** * Releasing *)

Module UtReleasing.
Import Ut UtRuns UtFacts UtOwnership UtSpawning UtStarting.

Ltac mstep :=
  first [ rewrite bind_assoc | rewrite bind_get | rewrite bind_modify
        | rewrite bind_mret ].

(** ** Releasing *)

Lemma filter_all_gone (p : Z) (st l : list Z) :
  forallb (fun q => existsb (Z.eqb q) (p :: st)) l = true ->
  List.filter (fun q => negb (existsb (Z.eqb q) (st ++ [p]))) l = [].
Proof.
  induction l as [|x l IH]; [reflexivity|]. cbn [forallb List.filter].
  rewrite andb_true_iff. intros [Hx Hl]. rewrite (IH Hl).
  rewrite existsb_app. cbn [existsb] in Hx |- *.
  apply orb_true_iff in Hx. destruct Hx as [Hx|Hx]; rewrite Hx;
    rewrite ?orb_true_r; reflexivity.
Qed.





Section Facts.
Context `{ut_header} {prog : host}.




(** X15.  [ut_init] over a table in use starts afresh without a leak: on a
    full table whose blocks are all that is allocated it frees every stack
    and the old table, and the new table, holding what [malloc] handed out,
    is the only block left; [next_position] and [curr_thread] are 0 again
    and the table is ready to be spawned into. *)
Theorem reinit_releases_old_table (n : Z) (g : Z -> Slot.ut_slot_t)
    (s : state) :
  owned_prefixb s = true -> tightb s = true ->
  next_position s = threads_table_size s -> 0 <= clamp n ->
  exists s' p,
    threads_table s = Some (p, slots_of s)
    /\ ut_init n (Some g) s = Ret 0 s'
    /\ heap_live s' = [Z.pos (heap_next s)]
    /\ threads_table s'
       = Some (Z.pos (heap_next s), g <$> seqZ 0 (clamp n))
    /\ trace s'
       = EvMalloc (Z.pos (heap_next s))
           :: EvFree p :: rev (EvFree <$> stacks_of s) ++ trace s
    /\ indices s' = (clamp n, 0, 0)
    /\ owned_prefixb s' = true
    /\ tightb s' = true.
Proof.
  intros Hown Htight Hfull Hn.
  destruct (owned_okb_of_full s Hown Hfull) as [Hok Hst].
  destruct (owned_prefixb_true s Hown) as (_ & _ & _ & _ & _ & _ & _ & Hf).
  destruct (release_memory_full s Hok) as (p & slots & Ht & Er).
  set (s1 := released (stacks_of s ++ [p]) s) in *.
  destruct (threads_table_released (stacks_of s ++ [p]) s)
    as (Htr & Hir & Hvr & Hor & Hnr). fold s1 in Htr, Hir, Hvr, Hor, Hnr.
  assert (Hh1 : heap_live s1 = []).
  { unfold s1. rewrite heap_live_released. apply filter_all_gone.
    unfold tightb in Htight. rewrite Ht, Hst in Htight. exact Htight. }
  eexists. exists p. split.
  { unfold slots_of. rewrite Ht. reflexivity. }
  split.
  { rewrite ut_init_unfold, Ht. rewrite bind_assoc.
    rewrite (bind_ret _ _ _ _ _ Er). rewrite bind_mret, init_rest_ret.
    reflexivity. }
  cbv zeta. fold s1.
  cbn [heap_live set_threads_table add_event set_heap threads_table trace
       set_curr_thread set_next_position set_threads_table_size heap_next].
  rewrite Hh1, Hnr.
  split; [reflexivity|]. split; [reflexivity|]. split.
  { unfold s1. rewrite trace_released, fmap_app, rev_app_distr. reflexivity. }
  split; [reflexivity|]. split.
  - eapply owned_prefixb_intro; [reflexivity| | | | |].
    + cbn. rewrite length_fmap, length_seqZ. lia.
    + cbn. lia.
    + reflexivity.
    + unfold spawned_stacks. cbn. rewrite Pos.eqb_refl. reflexivity.
    + unfold heap_freshb. cbn.
      rewrite andb_true_r. apply Pos.ltb_lt. lia.
  - unfold tightb. cbn. rewrite Pos.eqb_refl. reflexivity.
Qed.

End Facts.



Lemma reinit_releases_old_table_witness :
  exists s',
    ut_init (H:=sample_header) 3 (Some zeroed) spawned2 = Ret 0 s'
    /\ heap_live s' = [Z.pos (heap_next spawned2)]
    /\ indices s' = (3, 0, 0).
Proof.
  assert (Hn : 0 <= clamp (H:=sample_header) 3) by (vm_compute; discriminate).
  destruct (reinit_releases_old_table (H:=sample_header) 3 zeroed spawned2
              eq_refl eq_refl eq_refl Hn)
    as (s' & p & _ & E & Hh & _ & _ & Hi & _).
  exists s'. split; [exact E|]. split; [exact Hh|exact Hi].
Defined.

End UtReleasing.

(** * Exits and what stays untouched *)

Module UtExits.
Import Ut UtRuns UtFacts.

Ltac mstep :=
  first [ rewrite bind_assoc | rewrite bind_get | rewrite bind_modify
        | rewrite bind_mret ].

Ltac keeps_step :=
  first
    [ apply keeps_ret | apply keeps_undefined | apply keeps_exit
    | apply keeps_get
    | apply keeps_modify; intros ?; reflexivity
    | apply keeps_for_each; intros ?
    | apply keeps_bind; [|intros ?] ].

(** [keeps_step] through the branches of the code as well. *)
Ltac keeps_all :=
  repeat first
    [ keeps_step
    | match goal with
      | |- keeps _ (if ?b then _ else _) => destruct b
      | |- keeps _ (match ?x with _ => _ end) => destruct x
      end ].

(** ** Calls that do not exit *)

Lemma never_exits_bind {A B} (m : M state A) (k : A -> M state B) :
  never_exits m -> (forall a, never_exits (k a)) -> never_exits (m ≫= k).
Proof.
  intros Hm Hk s. specialize (Hm s). rewrite bind_run.
  destruct (m s); [apply Hk|contradiction|exact I].
Qed.

Lemma never_exits_ret {A} (a : A) : never_exits (mret a : M state A).
Proof. intros s. exact I. Qed.

Lemma never_exits_undefined {A} f : never_exits (undefined f : M state A).
Proof. intros s. exact I. Qed.

Lemma never_exits_get : never_exits (get : M state state).
Proof. intros s. exact I. Qed.

Lemma never_exits_modify f : never_exits (modify f : M state unit).
Proof. intros s. exact I. Qed.

Lemma never_exits_for_each (idxs : list Z) body :
  (forall i, never_exits (body i)) ->
  never_exits (for_each idxs body : M state unit).
Proof.
  intros Hb. induction idxs as [|i rest IH]; cbn [for_each].
  - apply never_exits_ret.
  - apply never_exits_bind; auto.
Qed.

Ltac stays :=
  repeat first
    [ apply never_exits_ret | apply never_exits_undefined
    | apply never_exits_get | apply never_exits_modify
    | apply never_exits_for_each; intros ?
    | apply never_exits_bind; [|intros ?]
    | match goal with
      | |- never_exits (if ?b then _ else _) => destruct b
      | |- never_exits (match ?x with _ => _ end) => destruct x
      end ].

Lemma never_exits_released (n : Z) (p : ptr) :
  never_exits
    (for_each (seqZ 0 n) (fun i =>
       sl ← load_slot i;
       free (ss_sp (uc_stack (Slot.uc sl)))) ;;
     free p ;; mret 0).
Proof. unfold free, load_slot, table, log. stays. Qed.

Lemma never_exits_swapcontext a b ok : never_exits (swapcontext a b ok).
Proof. unfold swapcontext, update_slot, load_slot, table, log. stays. Qed.

Lemma load_slot_null i s :
  threads_table s = None -> load_slot i s = Undefined NullDeref.
Proof.
  intros Ht. unfold load_slot, table. repeat mstep. rewrite Ht. reflexivity.
Qed.

Lemma swapcontext_answer (from to : Z) (ok : bool) (s : state) :
  on_ret (fun r _ => r = if ok then 0 else -1) (swapcontext from to ok s).
Proof.
  unfold swapcontext.
  apply (on_ret_bind _ _ (fun _ : state => True)); [apply on_final_True|intros _ s1 _].
  apply (on_ret_bind _ _ (fun _ : state => True)); [apply on_final_True|intros _ s2 _].
  apply (on_ret_bind _ _ (fun _ : state => True)); [apply on_final_True|intros _ s3 _].
  destruct ok; [|reflexivity].
  apply (on_ret_bind _ _ (fun _ : state => True)); [apply on_final_True|intros _ s4 _].
  reflexivity.
Qed.

Lemma keeps_heap_swapcontext from to ok :
  keeps heap_live (swapcontext from to ok).
Proof. unfold swapcontext, update_slot, load_slot, table, log. keeps_all. Qed.

Lemma keeps_table_swapcontext from to :
  keeps threads_table (swapcontext from to false).
Proof. unfold swapcontext, update_slot, load_slot, table, log. keeps_all. Qed.

Section Facts.
Context `{ut_header} {prog : host}.

(** With a table to release, [release_memory] does not reach its [exit]. *)
Lemma release_memory_stays s :
  threads_table s <> None -> returns_or_faults (release_memory s).
Proof.
  intros Ht. unfold release_memory. rewrite bind_get.
  destruct (threads_table s) as [[p slots]|]; [|contradiction].
  apply never_exits_released.
Qed.

(** Without one, it reports and exits. *)
Lemma release_memory_exits s :
  threads_table s = None ->
  release_memory s = Exit EXIT_FAILURE (add_event EvPerror s).
Proof.
  intros Ht. unfold release_memory. rewrite bind_get, Ht. reflexivity.
Qed.

Lemma never_exits_ut_init n chunk : never_exits (ut_init n chunk).
Proof.
  intros s. rewrite ut_init_unfold, bind_run.
  destruct (threads_table s) as [t|] eqn:Ht.
  - rewrite bind_run. pose proof (release_memory_stays s) as Hr.
    destruct (release_memory s); [|apply Hr; congruence|exact I].
    unfold mret at 1, M_ret. rewrite init_rest_ret. destruct chunk; exact I.
  - unfold mret at 1, M_ret. rewrite init_rest_ret. destruct chunk; exact I.
Qed.

Lemma never_exits_ut_spawn_thread f a so gc :
  never_exits (ut_spawn_thread f a so gc).
Proof.
  unfold ut_spawn_thread, update_slot, load_slot, table, malloc, log. stays.
Qed.

Lemma never_exits_ut_start a : never_exits (ut_start a).
Proof. unfold ut_start, alarm, load_slot, table, log. stays. Qed.

Lemma never_exits_ut_get_vtime tid : never_exits (ut_get_vtime tid).
Proof. unfold ut_get_vtime, load_slot, table. stays. Qed.

Lemma never_exits_tick :
  never_exits
    (s ← get;
     modify (set_vtime (ulong_add (vtime s) INTERVAL_MICRO)) ;;
     update_slot (curr_thread s)
       (fun sl => Slot.set_vtime (ulong_add (Slot.vtime sl) INTERVAL_MICRO) sl)).
Proof. unfold update_slot, load_slot, table. stays. Qed.

(** SIGINT up to [release_memory]. *)
Lemma sigint_unfold ok s :
  thread_signals_handler SIGINT ok s
  = if old_sigaction s =? 0
    then (release_memory ;; mret tt) (add_event (EvAlarm 0) s)
    else (call_handler (old_sigaction s) SIGINT ;; release_memory ;; mret tt)
           (add_event (EvAlarm 0) s).
Proof.
  unfold thread_signals_handler.
  cbn [Z.eqb SIGALRM SIGVTALRM SIGINT Pos.eqb].
  unfold alarm, log. rewrite bind_modify, bind_get.
  cbn [old_sigaction add_event].
  destruct (old_sigaction s =? 0); [rewrite bind_mret|]; reflexivity.
Qed.

(** [release_memory] as the handler calls it ends the process only for want
    of a table. *)
Lemma release_exit_cases s code s' :
  (release_memory ;; mret tt) s = Exit code s' ->
  threads_table s = None /\ code = EXIT_FAILURE /\ s' = add_event EvPerror s.
Proof.
  intros E. rewrite bind_run in E.
  destruct (threads_table s) as [t|] eqn:Ht.
  - pose proof (release_memory_stays s) as Hr.
    destruct (release_memory s); [discriminate E| |discriminate E].
    exfalso. apply Hr. congruence.
  - rewrite (release_memory_exits s Ht) in E. injection E as <- <-. auto.
Qed.

(** What SIGINT does when there is no table and the handler stored before
    comes back. *)
Lemma sigint_no_table ok s :
  threads_table s = None -> comes_back (old_sigaction s) = true ->
  thread_signals_handler SIGINT ok s
  = Exit EXIT_FAILURE
      (add_event EvPerror
         ((if old_sigaction s =? 0 then fun s' => s'
           else add_event (EvCall (old_sigaction s) SIGINT))
            (add_event (EvAlarm 0) s))).
Proof.
  intros Ht Hback. rewrite sigint_unfold.
  destruct (Z.eqb_spec (old_sigaction s) 0) as [E0|Hne].
  - rewrite bind_run, release_memory_exits by exact Ht. reflexivity.
  - rewrite (bind_ret _ _ _ _ _ (call_handler_ret _ _ Hne Hback)).
    rewrite bind_run, release_memory_exits by exact Ht. reflexivity.
Qed.

(** X16.  The calls a program makes never end the process: [ut_init] (which
    calls [release_memory] only when there is a table to release),
    [ut_spawn_thread], [ut_start] and [ut_get_vtime] return or fault, and so
    does the handler on the virtual-clock tick. *)
Theorem library_calls_never_exit :
  (forall n chunk, never_exits (ut_init n chunk))
  /\ (forall f a stack_ok getcontext_ok,
        never_exits (ut_spawn_thread f a stack_ok getcontext_ok))
  /\ (forall a, never_exits (ut_start a))
  /\ (forall tid, never_exits (ut_get_vtime tid))
  /\ (forall swap_ok, never_exits (thread_signals_handler SIGVTALRM swap_ok)).
Proof.
  split; [exact never_exits_ut_init|].
  split; [exact never_exits_ut_spawn_thread|].
  split; [exact never_exits_ut_start|].
  split; [exact never_exits_ut_get_vtime|].
  intros swap_ok. exact never_exits_tick.
Qed.

(** X17.  The handler ends the process in three ways only: on SIGALRM when
    [swapcontext] fails and on SIGINT when there is no table to release,
    both with [EXIT_FAILURE] and [perror] as the last call made; and on
    SIGINT when the handler stored before ends it, with the code that
    handler chose.  Nothing was freed on the way. *)
Theorem handler_exit_cases (signal : Z) (swap_ok : bool) (s s' : state)
    (code : Z) :
  thread_signals_handler signal swap_ok s = Exit code s' ->
  heap_live s' = heap_live s
  /\ threads_table s' = threads_table s
  /\ ((signal = SIGALRM /\ swap_ok = false
       /\ code = EXIT_FAILURE /\ exists t, trace s' = EvPerror :: t)
      \/ (signal = SIGINT /\ threads_table s = None
          /\ comes_back (old_sigaction s) = true
          /\ code = EXIT_FAILURE /\ exists t, trace s' = EvPerror :: t)
      \/ (signal = SIGINT /\ old_sigaction s <> 0
          /\ call_through (old_sigaction s) SIGINT = Ends code
          /\ trace s'
             = EvCall (old_sigaction s) SIGINT :: EvAlarm 0 :: trace s)).
Proof.
  intros E. destruct (Z.eqb_spec signal SIGALRM) as [->|Hna].
  - unfold thread_signals_handler in E.
    cbn [Z.eqb SIGALRM Pos.eqb] in E. unfold alarm, log in E.
    rewrite bind_modify, bind_get in E.
    destruct (_ >? INT_MAX); [discriminate E|].
    destruct (_ =? 0); [discriminate E|].
    rewrite bind_modify, bind_get, bind_run in E.
    match type of E with
    | context [swapcontext ?a ?b ?ok ?s0] =>
        pose proof (swapcontext_answer a b ok s0) as Ha;
        pose proof (keeps_heap_swapcontext a b ok s0) as Hh;
        pose proof (never_exits_swapcontext a b ok s0) as Hx;
        destruct (swapcontext a b ok s0) as [r s1|c s1|f] eqn:Es
    end; [|contradiction|discriminate E].
    cbn in Ha, Hh. subst r. destruct swap_ok.
    { discriminate E. }
    pose proof keeps_table_swapcontext as Kt.
    match type of Es with
    | swapcontext ?a ?b _ ?s0 = _ => specialize (Kt a b s0)
    end.
    rewrite Es in Kt. cbn in Kt.
    cbn [Z.eqb Z.opp Pos.eqb] in E. unfold perror, log in E.
    rewrite bind_modify in E. injection E as <- <-.
    split; [exact Hh|]. split; [exact Kt|]. left.
    repeat split. eexists. reflexivity.
  - destruct (Z.eqb_spec signal SIGVTALRM) as [->|Hnv].
    + pose proof (never_exits_tick s) as Hx.
      unfold thread_signals_handler in E.
      cbn [Z.eqb SIGALRM SIGVTALRM Pos.eqb] in E.
      rewrite E in Hx. contradiction.
    + destruct (Z.eqb_spec signal SIGINT) as [->|Hni].
      * rewrite sigint_unfold in E.
        destruct (Z.eqb_spec (old_sigaction s) 0) as [E0|Hne].
        { destruct (release_exit_cases _ _ _ E) as (Ht & -> & ->).
          split; [reflexivity|]. split; [reflexivity|]. right. left.
          repeat split; [exact Ht| |eexists; reflexivity].
          unfold comes_back. rewrite E0. reflexivity. }
        unfold call_handler at 1 in E. unfold log in E.
        rewrite bind_assoc, bind_modify in E.
        destruct (old_sigaction s =? SIG_IGN) eqn:Ei; [discriminate E|].
        destruct (call_through (old_sigaction s) SIGINT) eqn:Ec;
          [|injection E as <- <-|discriminate E].
        { rewrite bind_mret in E.
          destruct (release_exit_cases _ _ _ E) as (Ht & -> & ->).
          split; [reflexivity|]. split; [reflexivity|]. right. left.
          repeat split; [exact Ht| |eexists; reflexivity].
          unfold comes_back. rewrite Ei, Ec. apply orb_true_r. }
        split; [reflexivity|]. split; [reflexivity|]. right. right.
        repeat split. exact Hne.
      * unfold thread_signals_handler in E.
        destruct (Z.eqb_spec signal SIGALRM); [contradiction|].
        destruct (Z.eqb_spec signal SIGVTALRM); [contradiction|].
        destruct (Z.eqb_spec signal SIGINT); [contradiction|].
        discriminate E.
Qed.

(** X18.  SIGINT without a table (before [ut_init], or after an [ut_init]
    whose [malloc] failed), when the handler SIGINT had before is null or
    comes back: the handler of ut.c cancels the alarm, calls the handler
    stored before if its pointer is not null, and then [release_memory]
    reports through [perror] and exits with [EXIT_FAILURE]; nothing is freed
    and no static changes. *)
Theorem sigint_without_table (swap_ok : bool) (s : state) :
  threads_table s = None -> comes_back (old_sigaction s) = true ->
  exists s',
    thread_signals_handler SIGINT swap_ok s = Exit EXIT_FAILURE s'
    /\ trace s'
       = EvPerror
           :: (if old_sigaction s =? 0 then []
               else [EvCall (old_sigaction s) SIGINT])
           ++ EvAlarm 0 :: trace s
    /\ heap_live s' = heap_live s
    /\ threads_table s' = None
    /\ indices s' = indices s
    /\ vtime s' = vtime s.
Proof.
  intros Ht Hback. eexists.
  split; [apply (sigint_no_table swap_ok s Ht Hback)|].
  destruct (old_sigaction s =? 0); repeat split; assumption.
Qed.

(** X19.  Only the virtual-clock tick changes the accumulator [vtime]:
    [ut_init] (which resets the table and the indices) does not reset it,
    and neither [ut_spawn_thread], [ut_start], [ut_get_vtime] nor the
    handler on any other signal writes it, however they end. *)
Theorem accumulator_only_ticks (signal : Z) :
  signal <> SIGVTALRM ->
  (forall n chunk, keeps vtime (ut_init n chunk))
  /\ (forall f a stack_ok getcontext_ok,
        keeps vtime (ut_spawn_thread f a stack_ok getcontext_ok))
  /\ (forall a, keeps vtime (ut_start a))
  /\ (forall tid, keeps vtime (ut_get_vtime tid))
  /\ (forall swap_ok, keeps vtime (thread_signals_handler signal swap_ok)).
Proof.
  intros Hs. split; [|split; [|split; [|split]]].
  - intros n chunk.
    unfold ut_init, release_memory, malloc, free, load_slot, table, perror,
      log.
    cbv zeta. keeps_all.
  - intros f a so gc.
    unfold ut_spawn_thread, update_slot, load_slot, table, malloc, log.
    cbv zeta. keeps_all.
  - intros a. unfold ut_start, alarm, load_slot, table, log. keeps_all.
  - intros tid. unfold ut_get_vtime, load_slot, table. keeps_all.
  - intros swap_ok. unfold thread_signals_handler.
    destruct (Z.eqb_spec signal SIGVTALRM); [contradiction|].
    unfold swapcontext, call_handler, release_memory, update_slot, free,
      load_slot, table, alarm, perror, log.
    cbv zeta. keeps_all.
Qed.

(** X20.  No function checks the table pointer before it indexes it.  With
    [threads_table] NULL and [threads_table_size] not 0 (the state a failed
    [ut_init] leaves), [ut_spawn_thread] gets its stack and then hands
    [getcontext] an address computed from NULL, the virtual-clock tick adds
    to the accumulator and then writes through NULL, and the preemption
    tick re-arms the alarm and hands [swapcontext] such addresses. *)
Theorem null_table_uses (s : state) :
  threads_table s = None -> threads_table_size s <> 0 ->
  next_position s <> threads_table_size s ->
  curr_thread s + 1 <= INT_MAX ->
  (forall f a getcontext_ok,
     ut_spawn_thread f a true getcontext_ok s = Undefined NullDeref)
  /\ (forall swap_ok,
        thread_signals_handler SIGVTALRM swap_ok s = Undefined NullDeref)
  /\ (forall swap_ok,
        thread_signals_handler SIGALRM swap_ok s = Undefined NullDeref).
Proof.
  intros Ht Hsz Hnp Hc. split; [|split].
  - intros f a gc. unfold ut_spawn_thread. rewrite bind_get.
    destruct (Z.eqb_spec (next_position s) (threads_table_size s));
      [contradiction|].
    unfold malloc, log. repeat mstep.
    change (Z.pos (heap_next s) =? NULL) with false. cbv iota.
    rewrite bind_run, load_slot_null; [reflexivity|exact Ht].
  - intros swap_ok. unfold thread_signals_handler.
    cbn [Z.eqb SIGALRM SIGVTALRM Pos.eqb].
    rewrite bind_get, bind_modify. unfold update_slot.
    rewrite bind_run, load_slot_null; [reflexivity|exact Ht].
  - intros swap_ok. unfold thread_signals_handler.
    cbn [Z.eqb SIGALRM Pos.eqb]. unfold alarm, log.
    rewrite bind_modify, bind_get. cbn [curr_thread add_event threads_table_size].
    destruct (Z.gtb_spec (curr_thread s + 1) INT_MAX); [lia|].
    destruct (Z.eqb_spec (threads_table_size s) 0); [contradiction|].
    rewrite bind_modify, bind_get. unfold swapcontext.
    rewrite bind_assoc, bind_run, load_slot_null; [reflexivity|exact Ht].
Qed.

End Facts.

Lemma handler_exit_cases_witness :
  heap_live (add_event EvPerror (add_event (EvAlarm 0) unallocated3))
  = heap_live unallocated3
  /\ threads_table (add_event EvPerror (add_event (EvAlarm 0) unallocated3))
     = threads_table unallocated3.
Proof.
  destruct (handler_exit_cases SIGINT true unallocated3
              (add_event EvPerror (add_event (EvAlarm 0) unallocated3)) 1
              eq_refl)
    as (Hh & Ht & _).
  split; [exact Hh|exact Ht].
Defined.

Lemma sigint_without_table_witness :
  exists s',
    thread_signals_handler SIGINT true unallocated3 = Exit 1 s'
    /\ trace s' = EvPerror :: EvAlarm 0 :: trace unallocated3.
Proof.
  destruct (sigint_without_table true unallocated3 eq_refl eq_refl)
    as (s' & E & Ht & _).
  exists s'. split; [exact E|exact Ht].
Defined.

Lemma accumulator_only_ticks_witness :
  keeps vtime (ut_init (H:=sample_header) 2 (Some zeroed))
  /\ keeps vtime (thread_signals_handler SIGINT true).
Proof.
  assert (Hs : SIGINT <> SIGVTALRM) by discriminate.
  destruct (accumulator_only_ticks (H:=sample_header) SIGINT Hs)
    as (Hi & _ & _ & _ & Hh).
  split; [apply Hi|apply Hh].
Defined.

Lemma null_table_uses_witness :
  ut_spawn_thread (H:=sample_header) worker 5 true true unallocated3
  = Undefined NullDeref
  /\ thread_signals_handler SIGALRM true unallocated3 = Undefined NullDeref.
Proof.
  assert (Hz : threads_table_size unallocated3 <> 0) by discriminate.
  assert (Hn : next_position unallocated3 <> threads_table_size unallocated3)
    by discriminate.
  assert (Hc : curr_thread unallocated3 + 1 <= INT_MAX)
    by (vm_compute; discriminate).
  destruct (null_table_uses (H:=sample_header) unallocated3 eq_refl Hz Hn Hc)
    as (Hs & _ & Ha).
  split; [apply Hs|apply Ha].
Defined.

End UtExits.
